(** * map_story: the biography extractor, the query normalizer, the geocoding
      resolver and the orchestrator loop, embedded in Rocq.

    Sources embedded here:
    - [src/utils/markdownParser.js]  ([extractField], [extractSection],
      [parseMarkdown]);
    - [src/utils/geocoder.js]        ([geocodeCity] and its two cache layers);
    - [src/App.jsx]                  (the geocoding loop of [handleGenerate]);
    - [src/components/StoryMap.jsx]  (the effects of [StoryMap]);
    - [src/utils/ai.js]              ([callLLM], [extractHistoricalFigures]).

    JavaScript strings are sequences of UTF-16 code units, and the regular
    expressions of the sources are written without the [u] flag (one
    exception), so they see code units.  Strings are therefore [list N], one
    [N] per code unit, and every regular expression of the sources is kept as
    a syntax tree run by one backtracking matcher. *)

From Stdlib Require Import ZArith NArith List Bool Lia String Ascii.
From Stdlib Require Import Floats.
From stdpp Require Import gmap.
Import ListNotations.

Local Open Scope N_scope.

(** ** Strings as UTF-16 code units *)

Module JsString.

Abbreviation t := (list N).

(** Source text is UTF-8; [of_utf8] turns a literal of this file into the
    code units the JavaScript engine holds for the same text. *)
Fixpoint code_points (bs : list N) : list N :=
  match bs with
  | [] => []
  | b0 :: r0 =>
    if b0 <? 0x80 then b0 :: code_points r0
    else match r0 with
    | [] => [0xFFFD]
    | b1 :: r1 =>
      if b0 <? 0xE0 then ((b0 - 0xC0) * 64 + (b1 - 0x80)) :: code_points r1
      else match r1 with
      | [] => [0xFFFD]
      | b2 :: r2 =>
        if b0 <? 0xF0
        then ((b0 - 0xE0) * 4096 + (b1 - 0x80) * 64 + (b2 - 0x80)) :: code_points r2
        else match r2 with
        | [] => [0xFFFD]
        | b3 :: r3 =>
          ((b0 - 0xF0) * 262144 + (b1 - 0x80) * 4096 + (b2 - 0x80) * 64 + (b3 - 0x80))
            :: code_points r3
        end
      end
    end
  end.

Definition units_of_code_point (cp : N) : list N :=
  if cp <? 0x10000 then [cp]
  else [0xD800 + (cp - 0x10000) / 1024; 0xDC00 + (cp - 0x10000) mod 1024].

Definition of_utf8 (s : string) : t :=
  flat_map units_of_code_point
    (code_points (map N_of_ascii (list_ascii_of_string s))).

(** Literals are decoded by evaluation ([vm_compute]), never by the way. *)
Global Opaque of_utf8.

(** WhiteSpace and LineTerminator of ECMAScript: what [\s] matches and what
    [trim] removes. *)
Definition is_line_terminator (c : N) : bool :=
  (c =? 0x0A) || (c =? 0x0D) || (c =? 0x2028) || (c =? 0x2029).

Definition is_space (c : N) : bool :=
  (c =? 0x09) || (c =? 0x0B) || (c =? 0x0C) || (c =? 0x20) || (c =? 0xA0)
  || (c =? 0x1680) || ((0x2000 <=? c) && (c <=? 0x200A))
  || (c =? 0x202F) || (c =? 0x205F) || (c =? 0x3000) || (c =? 0xFEFF)
  || is_line_terminator c.

Fixpoint drop_while (p : N -> bool) (s : t) : t :=
  match s with
  | [] => []
  | c :: s' => if p c then drop_while p s' else s
  end.

(** [s.trim()] *)
Definition trim (s : t) : t :=
  rev (drop_while is_space (rev (drop_while is_space s))).

Fixpoint eqb (a b : t) : bool :=
  match a, b with
  | [], [] => true
  | x :: a', y :: b' => (x =? y) && eqb a' b'
  | _, _ => false
  end.

(** [s.startsWith(p)] *)
Fixpoint startsWith (s p : t) {struct p} : bool :=
  match p with
  | [] => true
  | y :: p' =>
    match s with
    | [] => false
    | x :: s' => (x =? y) && startsWith s' p'
    end
  end.

(** [s.includes(p)] *)
Fixpoint includes (s p : t) : bool :=
  startsWith s p ||
  match s with
  | [] => false
  | _ :: s' => includes s' p
  end.

(** [s.split(sep)] for a separator that is one code unit, or a regular
    expression that is one character class ([/[；;]/]): the string is cut at
    every code unit satisfying [sep]. *)
Fixpoint split (sep : N -> bool) (s : t) : list t :=
  match s with
  | [] => [[]]
  | c :: s' =>
    if sep c then [] :: split sep s'
    else match split sep s' with
         | [] => [[c]]
         | l :: ls => (c :: l) :: ls
         end
  end.

(** [parts.join(sep)] *)
Fixpoint join (sep : t) (parts : list t) : t :=
  match parts with
  | [] => []
  | [p] => p
  | p :: ps => p ++ sep ++ join sep ps
  end.

(** A string is falsy exactly when it is empty. *)
Definition truthy (s : t) : bool :=
  match s with [] => false | _ => true end.

End JsString.

Abbreviation jsstring := JsString.t.
Abbreviation js := JsString.of_utf8.

Definition LF : N := 0x0A.
Definition is_LF (c : N) : bool := c =? LF.

(** [text.split('\n')] and [lines.join('\n')] *)
Definition lines_of (text : jsstring) : list jsstring := JsString.split is_LF text.
Definition unlines (ls : list jsstring) : jsstring := JsString.join [LF] ls.


(** ** Regular expressions

    The syntax the sources use, and the backtracking matcher of ECMAScript
    (22.2.2) in continuation-passing style: a matcher takes the rest of the
    input and the captures so far and calls its continuation on what is left;
    [None] is failure and makes the caller try its next choice. *)

Module Regex.

Inductive t : Type :=
| Empty                        (* matches the empty string *)
| Class (p : N -> bool)        (* one code unit in a class; [.] is a class *)
| ClassU (p : N -> bool)       (* one code point in a class, [u] flag *)
| Seq (r1 r2 : t)
| Alt (r1 r2 : t)              (* r1|r2, r1 tried first *)
| Star (r : t)                 (* r*, greedy *)
| LazyStar (r : t)             (* r*? *)
| Group (i : nat) (r : t)      (* the i-th pair of capturing parentheses *)
| Bol.                         (* ^ without the m flag *)

Definition Plus (r : t) : t := Seq r (Star r).       (* r+ *)
Definition Opt (r : t) : t := Alt r Empty.           (* r? *)
Definition Chr (c : N) : t := Class (N.eqb c).

(** A literal string. *)
Fixpoint Lit (s : jsstring) : t :=
  match s with
  | [] => Empty
  | [c] => Chr c
  | c :: s' => Seq (Chr c) (Lit s')
  end.

(** [.] without the s flag, [\s], and a bracket class of listed units. *)
Definition dot (c : N) : bool := negb (JsString.is_line_terminator c).
Definition space (c : N) : bool := JsString.is_space c.
Definition one_of (cs : list N) (c : N) : bool := existsb (N.eqb c) cs.
Definition none_of (cs : list N) (c : N) : bool := negb (one_of cs c).

Definition captures := list (nat * jsstring).

Fixpoint capture (i : nat) (c : captures) : option jsstring :=
  match c with
  | [] => None
  | (j, s) :: c' => if Nat.eqb i j then Some s else capture i c'
  end.

(** What a successful match leaves: the input after the match and the
    captures. *)
Definition state := (jsstring * captures)%type.
Definition cont := jsstring -> captures -> option state.

(** With the [u] flag the input is read by code points: a high surrogate
    followed by a low one is one character. *)
Definition is_high (c : N) : bool := (0xD800 <=? c) && (c <=? 0xDBFF).
Definition is_low (c : N) : bool := (0xDC00 <=? c) && (c <=? 0xDFFF).
Definition pair_code_point (h l : N) : N :=
  0x10000 + (h - 0xD800) * 1024 + (l - 0xDC00).

(** The rounds of a greedy star over the matcher [body] (RepeatMatcher
    with min 0 and max infinite): another round is tried before the
    continuation, and a round that consumed nothing is refused (step 2.b),
    so every round shortens the input and [n = length s] rounds are all a
    star can make. *)
Fixpoint greedy_rounds (body : jsstring -> captures -> cont -> option state)
    (k : cont) (n : nat) (s : jsstring) (c : captures) : option state :=
  match n with
  | O => k s c
  | S n' =>
    match body s c
            (fun s' c' =>
               if Nat.ltb (length s') (length s)
               then greedy_rounds body k n' s' c' else None) with
    | Some x => Some x
    | None => k s c
    end
  end.

(** The same for a lazy star: the continuation is tried first. *)
Fixpoint lazy_rounds (body : jsstring -> captures -> cont -> option state)
    (k : cont) (n : nat) (s : jsstring) (c : captures) : option state :=
  match n with
  | O => k s c
  | S n' =>
    match k s c with
    | Some x => Some x
    | None =>
      body s c
        (fun s' c' =>
           if Nat.ltb (length s') (length s)
           then lazy_rounds body k n' s' c' else None)
    end
  end.

(** [run n0 r s c k]: match [r] at the front of [s], where [n0] is the
    length of the whole input (so [^] holds when [length s = n0]). *)
Fixpoint run (n0 : nat) (r : t) (s : jsstring) (c : captures) (k : cont)
  {struct r} : option state :=
  match r with
  | Empty => k s c
  | Class p =>
    match s with
    | x :: s' => if p x then k s' c else None
    | [] => None
    end
  | ClassU p =>
    match s with
    | h :: l :: s' =>
      if is_high h && is_low l
      then (if p (pair_code_point h l) then k s' c else None)
      else (if p h then k (l :: s') c else None)
    | [x] => if p x then k [] c else None
    | [] => None
    end
  | Seq r1 r2 => run n0 r1 s c (fun s' c' => run n0 r2 s' c' k)
  | Alt r1 r2 =>
    match run n0 r1 s c k with
    | Some x => Some x
    | None => run n0 r2 s c k
    end
  | Star r1 => greedy_rounds (run n0 r1) k (length s) s c
  | LazyStar r1 => lazy_rounds (run n0 r1) k (length s) s c
  | Group i r1 =>
    run n0 r1 s c
      (fun s' c' => k s' ((i, firstn (length s - length s') s) :: c'))
  | Bol => if Nat.eqb (length s) n0 then k s c else None
  end.

Definition accept : cont := fun s c => Some (s, c).

(** The match found by [exec]: where it starts, the matched text
    ([m[0]]), the captures ([m[1]], ...) and the input after the match. *)
Record result := {
  index : nat;
  matched : jsstring;
  groups : captures;
  after : jsstring
}.

(** The match at the front of [s], if any. *)
Definition match_here (n0 : nat) (r : t) (s : jsstring) : option state :=
  run n0 r s [] accept.

(** [r.exec(s)] for a regular expression without the g flag: the leftmost
    position where the matcher succeeds. *)
Fixpoint search (n0 : nat) (r : t) (s : jsstring) (i : nat) : option result :=
  match match_here n0 r s with
  | Some (s', c) =>
    Some {| index := i; matched := firstn (length s - length s') s;
            groups := c; after := s' |}
  | None =>
    match s with
    | [] => None
    | _ :: s' => search n0 r s' (S i)
    end
  end.

Definition exec (r : t) (s : jsstring) : option result :=
  search (length s) r s 0.

(** [r.test(s)], and [s.match(r)] used as a condition. *)
Definition test (r : t) (s : jsstring) : bool :=
  match exec r s with Some _ => true | None => false end.

(** [m[i]] of a match that succeeded; a group that took no part is
    [undefined], and none of the sources reads such a group. *)
Definition group (i : nat) (m : result) : jsstring :=
  match capture i (groups m) with Some s => s | None => [] end.

(** [s.replace(r, "")] without the g flag: the first match is removed. *)
Definition remove_first (r : t) (s : jsstring) : jsstring :=
  match exec r s with
  | Some m => firstn (index m) s ++ after m
  | None => s
  end.

(** [s.replace(r, "")] with the g flag: matches are looked for from left
    to right, each search starting where the last match ended (one unit
    later after an empty match).  [skip] counts the units of the current
    match still to be dropped. *)
Fixpoint remove_all_from (n0 : nat) (r : t) (s : jsstring) (skip : nat) : jsstring :=
  match s with
  | [] => []
  | x :: s' =>
    match skip with
    | S k => remove_all_from n0 r s' k
    | O =>
      match match_here n0 r s with
      | Some (rest, _) =>
        match (length s - length rest)%nat with
        | O => x :: remove_all_from n0 r s' 0
        | S k => remove_all_from n0 r s' k
        end
      | None => x :: remove_all_from n0 r s' 0
      end
    end
  end.

Definition remove_all (r : t) (s : jsstring) : jsstring :=
  remove_all_from (length s) r s 0.

End Regex.

(** ** The data the extractor produces *)

(** A property that an object may lack, or that holds what [extractField]
    returned: [null] or a string. *)
Inductive field : Type :=
| Absent
| Null
| Text (s : jsstring).

Module Person.
Record t := {
  name : field; era : field; birth : field; death : field;
  age : field; roles : field
}.
(** [{}] *)
Definition empty : t :=
  {| name := Absent; era := Absent; birth := Absent; death := Absent;
     age := Absent; roles := Absent |}.
Definition set_name v (p : t) := {| name := v; era := era p; birth := birth p; death := death p; age := age p; roles := roles p |}.
Definition set_era v (p : t) := {| name := name p; era := v; birth := birth p; death := death p; age := age p; roles := roles p |}.
Definition set_birth v (p : t) := {| name := name p; era := era p; birth := v; death := death p; age := age p; roles := roles p |}.
Definition set_death v (p : t) := {| name := name p; era := era p; birth := birth p; death := v; age := age p; roles := roles p |}.
Definition set_age v (p : t) := {| name := name p; era := era p; birth := birth p; death := death p; age := v; roles := roles p |}.
Definition set_roles v (p : t) := {| name := name p; era := era p; birth := birth p; death := death p; age := age p; roles := v |}.
End Person.

Inductive location_type : Type := normal | birth | death.

Module Location.
Record t := {
  name : jsstring;
  type : location_type;
  time : jsstring;
  desc : jsstring;
  significance : jsstring;
  quotes : list jsstring;
  locationDesc : option jsstring   (* absent until a line sets it *)
}.
Definition set_time v (l : t) := {| name := name l; type := type l; time := v; desc := desc l; significance := significance l; quotes := quotes l; locationDesc := locationDesc l |}.
Definition set_desc v (l : t) := {| name := name l; type := type l; time := time l; desc := v; significance := significance l; quotes := quotes l; locationDesc := locationDesc l |}.
Definition set_significance v (l : t) := {| name := name l; type := type l; time := time l; desc := desc l; significance := v; quotes := quotes l; locationDesc := locationDesc l |}.
Definition set_quotes v (l : t) := {| name := name l; type := type l; time := time l; desc := desc l; significance := significance l; quotes := v; locationDesc := locationDesc l |}.
Definition set_locationDesc v (l : t) := {| name := name l; type := type l; time := time l; desc := desc l; significance := significance l; quotes := quotes l; locationDesc := Some v |}.
End Location.

Module TimelineEntry.
Record t := { year : jsstring; age : jsstring; event : jsstring }.
End TimelineEntry.

(** ** src/utils/markdownParser.js *)

Module MarkdownParser.
Import Regex.

(** The pieces of a [keyPattern] such as ["时代|朝代"]: the pattern is
    spliced into the regular expression between parentheses, where [|]
    separates alternatives tried from left to right. *)
Fixpoint alternatives (rs : list Regex.t) : Regex.t :=
  match rs with
  | [] => Empty
  | [r] => r
  | r :: rs' => Alt r (alternatives rs')
  end.

Definition bar : N := 0x7C.

Definition key_regex (keyPattern : jsstring) : Regex.t :=
  alternatives (map Lit (JsString.split (N.eqb bar) keyPattern)).

(** [new RegExp(`^-\\s*\\*\\*(${keyPattern})\\*\\*：\\s*(.+)`)] *)
Definition field_regex (keyPattern : jsstring) : Regex.t :=
  Seq Bol (Seq (Lit (js "-")) (Seq (Star (Class space)) (Seq (Lit (js "**"))
  (Seq (Group 1 (key_regex keyPattern)) (Seq (Lit (js "**")) (Seq (Lit (js "："))
  (Seq (Star (Class space)) (Group 2 (Plus (Class dot)))))))))).

(** [extractField(line, keyPattern)]: [None] is [null]. *)
Definition extractField (line keyPattern : jsstring) : option jsstring :=
  match exec (field_regex keyPattern) line with
  | Some m => Some (JsString.trim (group 2 m))
  | None => None
  end.

(** [/^##\s+/] *)
Definition h2_regex : Regex.t :=
  Seq Bol (Seq (Lit (js "##")) (Plus (Class space))).

(** The loop of [extractSection]; [break] ends the recursion. *)
Fixpoint extractSection_loop (headerPattern : Regex.t) (lines : list jsstring)
    (inSection : bool) (content : list jsstring) : list jsstring :=
  match lines with
  | [] => content
  | line :: rest =>
    if test h2_regex line then
      if test headerPattern line
      then extractSection_loop headerPattern rest true content
      else if inSection then content
      else extractSection_loop headerPattern rest inSection content
    else if inSection
    then extractSection_loop headerPattern rest inSection (content ++ [line])
    else extractSection_loop headerPattern rest inSection content
  end.

Definition extractSection (text : jsstring) (headerPattern : Regex.t) : jsstring :=
  unlines (extractSection_loop headerPattern (lines_of text) false []).

(** The section headers: [/人物档案|基本信息/], [/人生历程|重要地点/],
    [/生平时间线/]. *)
Definition profile_header : Regex.t := Alt (Lit (js "人物档案")) (Lit (js "基本信息")).
Definition location_header : Regex.t := Alt (Lit (js "人生历程")) (Lit (js "重要地点")).
Definition timeline_header : Regex.t := Lit (js "生平时间线").

(** *** 1. The profile section *)

(** [/^###\s+生平概述/] *)
Definition overview_regex : Regex.t :=
  Seq Bol (Seq (Lit (js "###")) (Seq (Plus (Class space)) (Lit (js "生平概述")))).

(** [if (line.includes(mark)) result.person.f = extractField(line, pat)] *)
Definition assign_if (line mark pat : jsstring)
    (set : field -> Person.t -> Person.t) (p : Person.t) : Person.t :=
  if JsString.includes line mark
  then set (match extractField line pat with Some v => Text v | None => Null end) p
  else p.

Record profile_state := {
  person_so_far : Person.t;
  currentKey : jsstring;
  intro_so_far : jsstring
}.

Definition profile_step (st : profile_state) (line : jsstring) : profile_state :=
  let p := person_so_far st in
  let p := assign_if line (js "**姓名**") (js "姓名") Person.set_name p in
  let p := assign_if line (js "**时代**") (js "时代|朝代") Person.set_era p in
  let p := assign_if line (js "**出生**") (js "出生") Person.set_birth p in
  let p := assign_if line (js "**去世**") (js "去世") Person.set_death p in
  let p := assign_if line (js "**享年**") (js "享年") Person.set_age p in
  let p := assign_if line (js "**主要身份**") (js "主要身份") Person.set_roles p in
  if test overview_regex line then
    {| person_so_far := p; currentKey := js "overview"; intro_so_far := intro_so_far st |}
  else if JsString.eqb (currentKey st) (js "overview")
          && JsString.truthy (JsString.trim line)
          && negb (JsString.startsWith line (js "#"))
  then {| person_so_far := p; currentKey := currentKey st;
          intro_so_far := intro_so_far st ++ JsString.trim line ++ js " " |}
  else {| person_so_far := p; currentKey := currentKey st; intro_so_far := intro_so_far st |}.

(** *** 2. The location section *)

(** [/^###\s+[🟢🔴📍]?\s*(.+)/]: there is no [u] flag, so the class holds
    the six surrogate halves of the three emoji, and matches one half. *)
Definition location_regex : Regex.t :=
  Seq Bol (Seq (Lit (js "###")) (Seq (Plus (Class space))
  (Seq (Opt (Class (one_of (js "🟢🔴📍"))))
  (Seq (Star (Class space)) (Group 1 (Plus (Class dot))))))).

(** [/出生地[：:]\s*/], [/去世地[：:]\s*/], [/重要地点[：:]\s*/] *)
Definition marker_regex (marker : jsstring) : Regex.t :=
  Seq (Lit marker) (Seq (Class (one_of (js "：:"))) (Star (Class space))).

(** [/^[\u{1F300}-\u{1F9FF}]/u] *)
Definition emoji_regex : Regex.t :=
  Seq Bol (ClassU (fun cp => (0x1F300 <=? cp) && (cp <=? 0x1F9FF))).

(** The record a header line opens, from [headerMatch[1]]. *)
Definition open_location (header : jsstring) : Location.t :=
  let name := JsString.trim header in
  let '(type, name) :=
    if JsString.includes name (js "出生地")
    then (birth, remove_first (marker_regex (js "出生地")) name)
    else if JsString.includes name (js "去世地")
    then (death, remove_first (marker_regex (js "去世地")) name)
    else if JsString.includes name (js "重要地点")
    then (normal, remove_first (marker_regex (js "重要地点")) name)
    else (normal, name) in
  let name := JsString.trim (remove_first emoji_regex name) in
  {| Location.name := name; Location.type := type; Location.time := [];
     Location.desc := []; Location.significance := [];
     Location.quotes := []; Location.locationDesc := None |}.

(** [const v = extractField(line, pat); if (v) currentLocation.f = g(v)] *)
Definition update_if {A} (line pat : jsstring) (g : jsstring -> A)
    (set : A -> Location.t -> Location.t) (l : Location.t) : Location.t :=
  match extractField line pat with
  | Some v => if JsString.truthy v then set (g v) l else l
  | None => l
  end.

(** [quotes.split(/[；;]/).map(s => s.trim()).filter(Boolean)] *)
Definition split_quotes (quotes : jsstring) : list jsstring :=
  List.filter JsString.truthy
    (map JsString.trim (JsString.split (one_of (js "；;")) quotes)).

Definition location_fields (line : jsstring) (l : Location.t) : Location.t :=
  let l := update_if line (js "公元纪年|时间|时段") id Location.set_time l in
  let l := update_if line (js "事迹|经过|事件") id Location.set_desc l in
  let l := update_if line (js "意义|影响") id Location.set_significance l in
  let l := update_if line (js "名篇名句|代表名句|名句") split_quotes Location.set_quotes l in
  update_if line (js "位置|地点") id Location.set_locationDesc l.

Record location_state := {
  locations_so_far : list Location.t;
  currentLocation : option Location.t
}.

(** [if (currentLocation) result.locations.push(currentLocation)] *)
Definition flush (st : location_state) : list Location.t :=
  match currentLocation st with
  | Some l => locations_so_far st ++ [l]
  | None => locations_so_far st
  end.

Definition location_step (st : location_state) (line : jsstring) : location_state :=
  match exec location_regex line with
  | Some headerMatch =>
    {| locations_so_far := flush st;
       currentLocation := Some (open_location (group 1 headerMatch)) |}
  | None =>
    {| locations_so_far := locations_so_far st;
       currentLocation := option_map (location_fields line) (currentLocation st) |}
  end.

(** *** 3. The timeline section *)

Record timeline_state := {
  timeline_so_far : list TimelineEntry.t;
  tableStarted : bool
}.

Definition timeline_step (st : timeline_state) (line : jsstring) : timeline_state :=
  if JsString.startsWith (JsString.trim line) (js "|") && JsString.includes line (js "年份")
  then {| timeline_so_far := timeline_so_far st; tableStarted := true |}
  else if tableStarted st && JsString.startsWith (JsString.trim line) (js "|")
          && negb (JsString.includes line (js "---"))
  then
    match List.filter JsString.truthy
            (map JsString.trim (JsString.split (N.eqb bar) line)) with
    | year :: age :: event :: _ =>
      {| timeline_so_far := timeline_so_far st ++
           [{| TimelineEntry.year := year; TimelineEntry.age := age;
               TimelineEntry.event := event |}];
         tableStarted := tableStarted st |}
    | _ => st
    end
  else st.

(** *** parseMarkdown *)

Record result := {
  person : Person.t;
  locations : list Location.t;
  timeline : list TimelineEntry.t;
  intro : jsstring
}.

Definition empty_result : result :=
  {| person := Person.empty; locations := []; timeline := []; intro := [] |}.

Definition parse_profile (markdown : jsstring) : profile_state :=
  let start := {| person_so_far := Person.empty; currentKey := []; intro_so_far := [] |} in
  let profileSection := extractSection markdown profile_header in
  if JsString.truthy profileSection
  then fold_left profile_step (lines_of profileSection) start
  else start.

Definition parse_locations (markdown : jsstring) : list Location.t :=
  let locationSection := extractSection markdown location_header in
  if JsString.truthy locationSection
  then flush (fold_left location_step (lines_of locationSection)
                {| locations_so_far := []; currentLocation := None |})
  else [].

Definition parse_timeline (markdown : jsstring) : list TimelineEntry.t :=
  let timelineSection := extractSection markdown timeline_header in
  if JsString.truthy timelineSection
  then timeline_so_far (fold_left timeline_step (lines_of timelineSection)
                          {| timeline_so_far := []; tableStarted := false |})
  else [].

Definition parseMarkdown (markdown : jsstring) : result :=
  if negb (JsString.truthy markdown) then empty_result
  else
    let profile := parse_profile markdown in
    {| person := person_so_far profile;
       locations := parse_locations markdown;
       timeline := parse_timeline markdown;
       intro := intro_so_far profile |}.

End MarkdownParser.

(** ** JavaScript values

    What [JSON.parse] can return and what the resolver builds and caches.
    Numbers are IEEE 754 binary64, as in the language. *)

#[warnings="-register-all"]
Inductive value : Type :=
| VUndefined
| VNull
| VBool (b : bool)
| VNumber (x : float)
| VString (s : jsstring)
| VArray (elements : list value)
| VObject (properties : list (jsstring * value)).

Module Value.

(** ToBoolean *)
Definition truthy (v : value) : bool :=
  match v with
  | VUndefined | VNull => false
  | VBool b => b
  | VNumber x => negb (PrimFloat.eqb x 0 || PrimFloat.is_nan x)
  | VString s => JsString.truthy s
  | VArray _ | VObject _ => true
  end.

(** The value of an own property.  Property lists hold a key once:
    [assign] is the only way they grow. *)
Fixpoint lookup (key : jsstring) (props : list (jsstring * value)) : option value :=
  match props with
  | [] => None
  | (k, v) :: rest => if JsString.eqb k key then Some v else lookup key rest
  end.

(** [o[key] = v]: an existing key keeps its place. *)
Fixpoint assign (key : jsstring) (v : value) (props : list (jsstring * value))
  : list (jsstring * value) :=
  match props with
  | [] => [(key, v)]
  | (k, v0) :: rest =>
    if JsString.eqb k key then (k, v) :: rest else (k, v0) :: assign key v rest
  end.

(** The decimal digits of an array index. *)
Definition digit_char (d : nat) : N := 0x30 + N.of_nat d.

Fixpoint digits_fuel (fuel n : nat) (acc : jsstring) : jsstring :=
  match fuel with
  | O => acc
  | S fuel' =>
    let acc' := digit_char (n mod 10) :: acc in
    if Nat.ltb n 10 then acc' else digits_fuel fuel' (n / 10) acc'
  end.

Definition index_key (n : nat) : jsstring := digits_fuel (S n) n [].

Fixpoint indexed {A} (f : A -> value) (i : nat) (l : list A) : list (jsstring * value) :=
  match l with
  | [] => []
  | x :: l' => (index_key i, f x) :: indexed f (S i) l'
  end.

(** The own enumerable properties that [{...v}] copies. *)
Definition own_properties (v : value) : list (jsstring * value) :=
  match v with
  | VObject props => props
  | VArray l => indexed id 0 l
  | VString s => indexed (fun c => VString [c]) 0 s
  | _ => []
  end.

(** [v.key] for a [v] that is neither [undefined] nor [null] and a key
    other than [length]: strings and arrays have their indices. *)
Definition get (v : value) (key : jsstring) : value :=
  match lookup key (own_properties v) with
  | Some x => x
  | None => VUndefined
  end.

(** [data[0]] *)
Definition first (data : value) : value := get data (js "0").

End Value.

(** ** The host: the engine's library functions and the network

    [JSON.parse], [JSON.stringify], [parseFloat] and the conversion to a
    number are the engine's, not this repository's.  The resolver is written
    over any engine that provides them; [None] from [JSON_parse] is the
    [SyntaxError] it throws. *)

Class Runtime : Type := {
  JSON_parse : jsstring -> option value;
  JSON_stringify : value -> jsstring;
  parseFloat : value -> float;
  ToNumber : value -> float
}.

(** What the geocoding provider answers to a request: the request fails, or a
    response arrives with a status ([ok] is [resp.ok]) and a body. *)
Inductive response : Type :=
| NetworkError
| Response (ok : bool) (body : jsstring).

(** The provider, as the resolver sees it: the answer to the [n]-th request
    of the run, made to [url]. *)
Definition network := nat -> jsstring -> response.

(** ** src/utils/geocoder.js *)

Module Geocoder.

(** Everything the resolver does to the world, in order. *)
Inductive event : Type :=
| MemoryHas (name : jsstring)
| MemoryGet (name : jsstring)
| MemorySet (name : jsstring) (v : value)
| StorageGet (key : jsstring)
| StorageSet (key : jsstring) (text : jsstring)
| StorageRemove (key : jsstring)
| Fetch (url : jsstring)
| Delay (ms : N)
| ConsoleError.

(** [GEOCODE_CACHE] (a [Map]), [localStorage], and the trace. *)
Record state := {
  GEOCODE_CACHE : gmap jsstring value;
  localStorage : gmap jsstring jsstring;
  trace : list event
}.

Definition is_fetch (e : event) : bool :=
  match e with Fetch _ => true | _ => false end.

(** The number of requests made so far. *)
Definition requests (s : state) : nat := length (List.filter is_fetch (trace s)).

Inductive exn : Type := URIError | TypeError | SyntaxError | FetchFailed.

Inductive completion (A : Type) : Type :=
| Return (a : A)
| Throw (e : exn).
Arguments Return {A} a.
Arguments Throw {A} e.

(** Computations over the state that may throw. *)
Definition M (A : Type) : Type := state -> completion A * state.

Definition ret {A} (a : A) : M A := fun s => (Return a, s).
Definition throw {A} (e : exn) : M A := fun s => (Throw e, s).
Definition bind {A B} (m : M A) (f : A -> M B) : M B :=
  fun s =>
    match m s with
    | (Return a, s') => f a s'
    | (Throw e, s') => (Throw e, s')
    end.
Definition try_catch {A} (m : M A) (handler : exn -> M A) : M A :=
  fun s =>
    match m s with
    | (Return a, s') => (Return a, s')
    | (Throw e, s') => handler e s'
    end.

Declare Scope js_scope.
Delimit Scope js_scope with js.
Notation "'do' x <- m ; k" := (bind m (fun x => k))
  (at level 10, x name, m at level 100, k at level 200) : js_scope.
Notation "'perform' m ; k" := (bind m (fun _ => k))
  (at level 10, m at level 100, k at level 200) : js_scope.
Local Open Scope js_scope.

Definition emit (e : event) : M unit :=
  fun s => (Return tt, {| GEOCODE_CACHE := GEOCODE_CACHE s;
                          localStorage := localStorage s;
                          trace := trace s ++ [e] |}).

(** [GEOCODE_CACHE.has(name)], [.get(name)], [.set(name, v)] *)
Definition cache_has (name : jsstring) : M bool :=
  perform emit (MemoryHas name) ;
  fun s => (Return (bool_decide (is_Some (GEOCODE_CACHE s !! name))), s).
Definition cache_get (name : jsstring) : M value :=
  perform emit (MemoryGet name) ;
  fun s => (Return (default VUndefined (GEOCODE_CACHE s !! name)), s).
Definition cache_set (name : jsstring) (v : value) : M unit :=
  perform emit (MemorySet name v) ;
  fun s => (Return tt, {| GEOCODE_CACHE := <[name := v]> (GEOCODE_CACHE s);
                          localStorage := localStorage s;
                          trace := trace s |}).

(** [localStorage.getItem(key)] ([None] is [null]), [.setItem(key, text)],
    [.removeItem(key)] *)
Definition getItem (key : jsstring) : M (option jsstring) :=
  perform emit (StorageGet key) ;
  fun s => (Return (localStorage s !! key), s).
Definition setItem (key text : jsstring) : M unit :=
  perform emit (StorageSet key text) ;
  fun s => (Return tt, {| GEOCODE_CACHE := GEOCODE_CACHE s;
                          localStorage := <[key := text]> (localStorage s);
                          trace := trace s |}).
Definition removeItem (key : jsstring) : M unit :=
  perform emit (StorageRemove key) ;
  fun s => (Return tt, {| GEOCODE_CACHE := GEOCODE_CACHE s;
                          localStorage := delete key (localStorage s);
                          trace := trace s |}).

(** *** encodeURIComponent (ECMAScript 19.2.6.6, Encode) *)

Definition unreserved (c : N) : bool :=
  ((0x41 <=? c) && (c <=? 0x5A)) || ((0x61 <=? c) && (c <=? 0x7A))
  || ((0x30 <=? c) && (c <=? 0x39))
  || Regex.one_of (js "-_.!~*'()") c.

Definition hex_digit (d : N) : N := if d <? 10 then 0x30 + d else 0x41 + (d - 10).
Definition percent (byte : N) : jsstring :=
  [0x25; hex_digit (byte / 16); hex_digit (byte mod 16)].

Definition utf8_bytes (cp : N) : list N :=
  if cp <? 0x80 then [cp]
  else if cp <? 0x800 then [0xC0 + cp / 64; 0x80 + cp mod 64]
  else if cp <? 0x10000
  then [0xE0 + cp / 4096; 0x80 + (cp / 64) mod 64; 0x80 + cp mod 64]
  else [0xF0 + cp / 262144; 0x80 + (cp / 4096) mod 64;
        0x80 + (cp / 64) mod 64; 0x80 + cp mod 64].

(** [None] is the [URIError] thrown at a surrogate half that has no
    partner. *)
Fixpoint encodeURIComponent (s : jsstring) : option jsstring :=
  match s with
  | [] => Some []
  | c :: s' =>
    if unreserved c then option_map (cons c) (encodeURIComponent s')
    else if Regex.is_low c then None
    else if Regex.is_high c then
      match s' with
      | l :: s'' =>
        if Regex.is_low l
        then option_map
               (app (flat_map percent (utf8_bytes (Regex.pair_code_point c l))))
               (encodeURIComponent s'')
        else None
      | [] => None
      end
    else option_map (app (flat_map percent (utf8_bytes c))) (encodeURIComponent s')
  end.

(** The argument of [geocodeCity]: the callers pass strings, and the guard
    at its head also answers [null] and [undefined]. *)
Inductive query : Type :=
| QUndefined
| QNull
| QString (s : jsstring).

(** [`geocode_${name}`] and the URL of the search for an encoded name. *)
Definition cache_key (name : jsstring) : jsstring := js "geocode_" ++ name.
Definition search_url (q : jsstring) : jsstring :=
  js "https://nominatim.openstreetmap.org/search?format=json&q=" ++ q
  ++ js "&limit=1".

Section Resolver.
Context {rt : Runtime} (net : network).

(** [await fetch(url, ...)]: a request that fails rejects. *)
Definition fetch (url : jsstring) : M (bool * jsstring) :=
  fun s =>
    let n := requests s in
    match emit (Fetch url) s with
    | (_, s') =>
      match net n url with
      | NetworkError => (Throw FetchFailed, s')
      | Response ok body => (Return (ok, body), s')
      end
    end.

(** [await resp.json()] *)
Definition json (body : jsstring) : M value :=
  match JSON_parse body with
  | Some data => ret data
  | None => throw SyntaxError
  end.

(** [data && data.length > 0] *)
Definition has_matches (data : value) : bool :=
  Value.truthy data &&
  match data with
  | VArray l => Nat.ltb 0 (length l)
  | VString s => Nat.ltb 0 (length s)
  | VObject props =>
    match Value.lookup (js "length") props with
    | Some len => PrimFloat.ltb 0 (ToNumber len)
    | None => false
    end
  | _ => false
  end.

(** [const { lat, lon } = v]: [undefined] and [null] cannot be
    destructured. *)
Definition destructure (v : value) : M (value * value) :=
  match v with
  | VUndefined | VNull => throw TypeError
  | _ => ret (Value.get v (js "lat"), Value.get v (js "lon"))
  end.


(** The durable layer (lines 9-19): [Some parsed] when the stored entry
    is returned, [None] when the function goes on to the provider. *)
Definition durable_lookup (name cacheKey : jsstring) : M (option value) :=
  do stored <- getItem cacheKey ;
  match stored with
  | Some text =>
    if JsString.truthy text then
      match JSON_parse text with
      | Some parsed => perform cache_set name parsed ; ret (Some parsed)
      | None => perform removeItem cacheKey ; ret None
      end
    else ret None
  | None => ret None
  end.

(** The body of the [try] of lines 25-47: [Some v] is [return v] inside
    it, [None] is falling out of it. *)
Definition provider_lookup (name cacheKey url : jsstring) : M (option value) :=
  do resp <- fetch url ;
  let '(ok, body) := resp in
  if negb ok then ret (Some VNull)
  else
    do data <- json body ;
    if has_matches data then
      do fields <- destructure (Value.first data) ;
      let '(lat, lon) := fields in
      let result :=
        VObject [(js "lat", VNumber (parseFloat lat));
                 (js "lng", VNumber (parseFloat lon))] in
      perform cache_set name result ;
      perform setItem cacheKey (JSON_stringify result) ;
      perform emit (Delay 1000) ;
      ret (Some result)
    else ret None.

Definition geocodeCity (name : query) : M value :=
  match name with
  | QUndefined | QNull => ret VNull
  | QString name =>
    if negb (JsString.truthy name) then ret VNull
    else
      do has <- cache_has name ;
      if has then cache_get name
      else
        let cacheKey := cache_key name in
        do hit <- durable_lookup name cacheKey ;
        match hit with
        | Some parsed => ret parsed
        | None =>
          match encodeURIComponent name with
          | None => throw URIError
          | Some q =>
            let url := search_url q in
            do out <- try_catch (provider_lookup name cacheKey url)
                     (fun e => perform emit ConsoleError ; ret None) ;
            match out with
            | Some v => ret v
            | None => ret VNull
            end
          end
        end
  end.

End Resolver.

End Geocoder.

(** ** src/App.jsx: the geocoding loop of [handleGenerate] *)

Module App.
Import Geocoder.
Local Open Scope js_scope.

(** [/今([^）)]+)/] and [/[（(].*?[）)]/g] *)
Definition modern_regex : Regex.t :=
  Regex.Seq (Regex.Lit (js "今"))
    (Regex.Group 1 (Regex.Plus (Regex.Class (Regex.none_of (js "）)"))))).
Definition parenthesized_regex : Regex.t :=
  Regex.Seq (Regex.Class (Regex.one_of (js "（(")))
    (Regex.Seq (Regex.LazyStar (Regex.Class Regex.dot))
       (Regex.Class (Regex.one_of (js "）)")))).

(** [loc.locationDesc || loc.name] *)
Definition queryName (loc : Location.t) : jsstring :=
  match Location.locationDesc loc with
  | Some d => if JsString.truthy d then d else Location.name loc
  | None => Location.name loc
  end.

(** Lines 187-196: the query string sent for [loc]. *)
Definition geoName (loc : Location.t) : jsstring :=
  let geoName := queryName loc in
  let geoName :=
    if JsString.includes geoName (js "今") then
      match Regex.exec modern_regex geoName with
      | Some m => Regex.group 1 m
      | None => geoName
      end
    else geoName in
  let geoName := JsString.trim (Regex.remove_all parenthesized_regex geoName) in
  if negb (JsString.truthy geoName) then Location.name loc else geoName.

Definition type_name (t : location_type) : jsstring :=
  match t with
  | normal => js "normal"
  | birth => js "birth"
  | death => js "death"
  end.

(** The properties of a record of the extractor, in creation order. *)
Definition properties (loc : Location.t) : list (jsstring * value) :=
  [(js "name", VString (Location.name loc));
   (js "type", VString (type_name (Location.type loc)));
   (js "time", VString (Location.time loc));
   (js "desc", VString (Location.desc loc));
   (js "significance", VString (Location.significance loc));
   (js "quotes", VArray (map VString (Location.quotes loc)))]
  ++ match Location.locationDesc loc with
     | Some d => [(js "locationDesc", VString d)]
     | None => []
     end.

(** [{ ...loc, ...coords }] *)
Definition merge (loc : Location.t) (coords : value) : value :=
  VObject (fold_left (fun props kv => Value.assign (fst kv) (snd kv) props)
             (Value.own_properties coords) (properties loc)).

Section Loop.
Context {rt : Runtime} (net : network).

(** One round of the loop of lines 186-208. *)
Definition geocode_location (geocodedLocations : list value) (loc : Location.t)
  : M (list value) :=
  let geoName := geoName loc in
  do coords <- geocodeCity net (QString geoName) ;
  if Value.truthy coords then ret (geocodedLocations ++ [merge loc coords])
  else if negb (JsString.eqb geoName (Location.name loc)) then
    do coords2 <- geocodeCity net (QString (Location.name loc)) ;
    if Value.truthy coords2 then ret (geocodedLocations ++ [merge loc coords2])
    else ret geocodedLocations
  else ret geocodedLocations.

Fixpoint geocode_locations (locations : list Location.t)
    (geocodedLocations : list value) : M (list value) :=
  match locations with
  | [] => ret geocodedLocations
  | loc :: rest =>
    do acc <- geocode_location geocodedLocations loc ;
    geocode_locations rest acc
  end.

(** What a run shows once the biography text is there (lines 173-220). *)
Inductive outcome : Type :=
| NoLocations                      (* "未能提取到足够的地点信息。" *)
| NoCoordinates                    (* "无法获取地点的地理坐标，无法生成地图。" *)
| Map (locations : list value)     (* the map message *)
| Failed (e : exn).                (* the catch of line 222 *)

Definition handleGenerate_from (markdown : jsstring) : state -> outcome * state :=
  fun s =>
    let data := MarkdownParser.parseMarkdown markdown in
    match MarkdownParser.locations data with
    | [] => (NoLocations, s)
    | locations =>
      match geocode_locations locations [] s with
      | (Return [], s') => (NoCoordinates, s')
      | (Return geocodedLocations, s') => (Map geocodedLocations, s')
      | (Throw e, s') => (Failed e, s')
      end
    end.

End Loop.

End App.

(** ** An engine to run the sources on

    The properties below hold over every [Runtime].  To evaluate the sources
    on sample inputs, this is the library of an ECMAScript engine, as the
    standard defines it: decimal text to binary64 with round-to-nearest-even,
    the shortest decimal text of a number (Number::toString), [parseFloat],
    ToString, ToNumber, [JSON.parse] and [JSON.stringify]. *)

Module Engine.

Local Open Scope Z_scope.

Definition prec : Z := 53.
Definition emax : Z := 1024.

Fixpoint decimal_digits_fuel (fuel : nat) (n : Z) (acc : list Z) : list Z :=
  match fuel with
  | O => acc
  | S fuel' =>
    if n <? 10 then n :: acc
    else decimal_digits_fuel fuel' (n / 10) (n mod 10 :: acc)
  end.

(** The decimal digits of a natural number, most significant first. *)
Definition decimal_digits (n : Z) : list Z :=
  decimal_digits_fuel (S (Z.to_nat (Z.log2 n))) n [].

(** The binary64 nearest to [m * 10^e] ([m] positive), ties to even.  A
    negative exponent divides: the quotient is taken with 64 bits more than
    the divisor and a last bit that tells whether anything was left, which
    rounds like the exact value. *)
Definition nearest (m e : Z) : spec_float :=
  let d := Z.of_nat (length (decimal_digits m)) in
  if 310 <? d + e then S754_infinity false
  else if d + e <? -325 then S754_zero false
  else if 0 <=? e then binary_normalize prec emax (m * 10 ^ e) 0 false
  else
    let den := 10 ^ (- e) in
    let t := 64 + Z.log2_up den in
    let q := (m * 2 ^ t) / den in
    let r := (m * 2 ^ t) mod den in
    binary_normalize prec emax (2 * q + (if r =? 0 then 0 else 1)) (- (t + 1)) false.

Definition float_of_decimal (negative : bool) (m e : Z) : float :=
  let x := if m =? 0 then 0%float else SF2Prim (nearest m e) in
  if negative then PrimFloat.opp x else x.

(** *** Number::toString *)

(** A positive finite number as a fraction. *)
Definition fraction (x : float) : Z * Z :=
  match Prim2SF x with
  | S754_finite _ m e =>
    if 0 <=? e then (Z.pos m * 2 ^ e, 1) else (Z.pos m, 2 ^ (- e))
  | _ => (0, 1)
  end.

(** [v < 10^i] for [v = num/den]. *)
Definition below_power (num den i : Z) : bool :=
  if 0 <=? i then num <? den * 10 ^ i else num * 10 ^ (- i) <? den.

Fixpoint magnitude_fuel (fuel : nat) (num den i : Z) : Z :=
  match fuel with
  | O => i
  | S fuel' => if below_power num den i then i else magnitude_fuel fuel' num den (i + 1)
  end.

(** The [n] with [10^(n-1) <= v < 10^n]: the search starts below
    [log10 v], at most three steps away. *)
Definition magnitude (num den : Z) : Z :=
  let a := Z.log2 num - Z.log2_up den in
  magnitude_fuel 8 num den ((a * (if 0 <=? a then 30102 else 30103)) / 100000).

(** [floor (v / 10^q)] *)
Definition scaled_floor (num den q : Z) : Z :=
  if 0 <=? q then num / (den * 10 ^ q) else (num * 10 ^ (- q)) / den.

(** The sign of [|v - a*10^q| - |b*10^q - v|] for [a*10^q <= v <= b*10^q]. *)
Definition nearer (num den q a b : Z) : comparison :=
  if 0 <=? q
  then Z.compare (2 * num) ((a + b) * 10 ^ q * den)
  else Z.compare (2 * num * 10 ^ (- q)) ((a + b) * den).

(** The digits [s] and the exponent [n] of the shortest decimal that reads
    back as [x]: with [k] digits, [s * 10^(n-k)] rounds to [x]; of two such
    [s] the nearer to [x], and of two as near, the even one. *)
Fixpoint shortest_fuel (fuel : nat) (x : float) (num den n k : Z) : Z * Z :=
  match fuel with
  | O => (scaled_floor num den (n - k), k)
  | S fuel' =>
    let q := n - k in
    let lo := scaled_floor num den q in
    let hi := lo + 1 in
    let lo_ok := PrimFloat.eqb (float_of_decimal false lo q) x in
    let hi_ok := PrimFloat.eqb (float_of_decimal false hi q) x in
    if lo_ok && hi_ok then
      match nearer num den q lo hi with
      | Lt => (lo, k)
      | Gt => (hi, k)
      | Eq => (if Z.even lo then lo else hi, k)
      end
    else if lo_ok then (lo, k)
    else if hi_ok then (hi, k)
    else shortest_fuel fuel' x num den n (k + 1)
  end.

Definition digit (d : Z) : N := Z.to_N (48 + d).
Definition digits_text (n : Z) : jsstring := map digit (decimal_digits n).
Definition zeros (n : Z) : jsstring := repeat 0x30%N (Z.to_nat n).

(** The text of a positive finite number (Number::toString, steps 5-10). *)
Definition positive_text (x : float) : jsstring :=
  let '(num, den) := fraction x in
  let n := magnitude num den in
  let '(s, k) := shortest_fuel 17 x num den n 1 in
  let '(s, k, n) := if s =? 10 ^ k then (10 ^ (k - 1), k, n + 1) else (s, k, n) in
  let ds := digits_text s in
  if (k <=? n) && (n <=? 21) then ds ++ zeros (n - k)
  else if (0 <? n) && (n <=? 21)
  then firstn (Z.to_nat n) ds ++ js "." ++ skipn (Z.to_nat n) ds
  else if (-6 <? n) && (n <=? 0) then js "0." ++ zeros (- n) ++ ds
  else
    let e := n - 1 in
    let exponent := (if 0 <=? e then js "+" else js "-") ++ digits_text (Z.abs e) in
    match ds with
    | [d] => [d] ++ js "e" ++ exponent
    | d :: rest => [d] ++ js "." ++ rest ++ js "e" ++ exponent
    | [] => []
    end.

Definition number_text (x : float) : jsstring :=
  if PrimFloat.is_nan x then js "NaN"
  else if PrimFloat.eqb x 0 then js "0"
  else if PrimFloat.is_infinity x
  then (if PrimFloat.ltb x 0 then js "-Infinity" else js "Infinity")
  else if PrimFloat.ltb x 0 then js "-" ++ positive_text (PrimFloat.opp x)
  else positive_text x.

(** *** Numeric text *)

Local Open Scope N_scope.

Definition is_digit (c : N) : bool := (0x30 <=? c) && (c <=? 0x39).

Fixpoint digits_value (acc : Z) (s : jsstring) : Z :=
  match s with
  | [] => acc
  | c :: s' => digits_value (10 * acc + Z.of_N (c - 0x30))%Z s'
  end.

Fixpoint span (p : N -> bool) (s : jsstring) : jsstring * jsstring :=
  match s with
  | [] => ([], [])
  | c :: s' =>
    if p c then let '(a, b) := span p s' in (c :: a, b) else ([], s)
  end.

(** An optional sign. *)
Definition sign (s : jsstring) : bool * jsstring :=
  match s with
  | 0x2D :: s' => (true, s')
  | 0x2B :: s' => (false, s')
  | _ => (false, s)
  end.

(** An exponent part [e], [e+] or [e-] followed by digits; a part without
    digits is not one. *)
Definition exponent (s : jsstring) : Z * jsstring :=
  match s with
  | c :: s' =>
    if (c =? 0x65) || (c =? 0x45) then
      let '(negative, s2) := sign s' in
      match span is_digit s2 with
      | ([], _) => (0%Z, s)
      | (ds, rest) =>
        ((if negative then - digits_value 0 ds else digits_value 0 ds)%Z, rest)
      end
    else (0%Z, s)
  | [] => (0%Z, s)
  end.

(** The longest StrDecimalLiteral at the front of [s]: its value and what
    follows it. *)
Definition decimal_literal (s : jsstring) : option (float * jsstring) :=
  let '(negative, s1) := sign s in
  if JsString.startsWith s1 (js "Infinity")
  then Some (if negative then neg_infinity else infinity, skipn 8 s1)
  else
    let '(int, s2) := span is_digit s1 in
    let '(frac, s3) :=
      match s2 with
      | 0x2E :: t => span is_digit t
      | _ => ([], s2)
      end in
    match int ++ frac with
    | [] => None
    | ds =>
      let '(e, rest) := exponent s3 in
      Some (float_of_decimal negative (digits_value 0 ds)
              (e - Z.of_nat (length frac)), rest)
    end.

(** [parseFloat] of a string. *)
Definition parse_float (s : jsstring) : float :=
  match decimal_literal (JsString.drop_while JsString.is_space s) with
  | Some (x, _) => x
  | None => nan
  end.

Definition digit_in (radix : N) (c : N) : option N :=
  let d := if is_digit c then Some (c - 0x30)
           else if (0x61 <=? c) && (c <=? 0x66) then Some (c - 0x61 + 10)
           else if (0x41 <=? c) && (c <=? 0x46) then Some (c - 0x41 + 10)
           else None in
  match d with
  | Some d => if d <? radix then Some d else None
  | None => None
  end.

Fixpoint radix_value (radix : N) (acc : Z) (s : jsstring) : option Z :=
  match s with
  | [] => Some acc
  | c :: s' =>
    match digit_in radix c with
    | Some d => radix_value radix (Z.of_N radix * acc + Z.of_N d)%Z s'
    | None => None
    end
  end.

(** The radix a prefix [0x], [0o] or [0b] announces. *)
Definition radix_prefix (s : jsstring) : option (N * jsstring) :=
  match s with
  | 0x30 :: x :: (_ :: _) as ds =>
    if (x =? 0x78) || (x =? 0x58) then Some (16, ds)
    else if (x =? 0x6F) || (x =? 0x4F) then Some (8, ds)
    else if (x =? 0x62) || (x =? 0x42) then Some (2, ds)
    else None
  | _ => None
  end.

(** StringToNumber *)
Definition string_to_number (s : jsstring) : float :=
  match JsString.trim s with
  | [] => 0%float
  | t =>
    match radix_prefix t with
    | Some (r, ds) =>
      match radix_value r 0 ds with
      | Some n => float_of_decimal false n 0
      | None => nan
      end
    | None =>
      match decimal_literal t with
      | Some (v, []) => v
      | _ => nan
      end
    end
  end.

(** *** ToString and ToNumber *)

Fixpoint to_string (v : value) : jsstring :=
  match v with
  | VUndefined => js "undefined"
  | VNull => js "null"
  | VBool b => if b then js "true" else js "false"
  | VNumber x => number_text x
  | VString s => s
  | VArray l =>
    JsString.join (js ",")
      (map (fun e => match e with
                     | VUndefined | VNull => []
                     | _ => to_string e
                     end) l)
  | VObject _ => js "[object Object]"
  end.

Definition to_number (v : value) : float :=
  match v with
  | VUndefined => nan
  | VNull => 0%float
  | VBool b => if b then 1%float else 0%float
  | VNumber x => x
  | _ => string_to_number (to_string v)
  end.

(** *** JSON.stringify *)

Definition quotation : N := 0x22.
Definition backslash : N := 0x5C.

Definition hex4 (c : N) : jsstring :=
  let h d := if d <? 10 then 0x30 + d else 0x61 + (d - 10) in
  [h (c / 4096); h ((c / 256) mod 16); h ((c / 16) mod 16); h (c mod 16)].

Definition escape (c : N) : jsstring := backslash :: js "u" ++ hex4 c.

(** QuoteJSONString, unit by unit; a surrogate half is escaped unless it
    has its partner. *)
Fixpoint quote_units (s : jsstring) : jsstring :=
  match s with
  | [] => []
  | c :: s' =>
    if c =? quotation then backslash :: quotation :: quote_units s'
    else if c =? backslash then backslash :: backslash :: quote_units s'
    else if c =? 0x08 then backslash :: js "b" ++ quote_units s'
    else if c =? 0x0C then backslash :: js "f" ++ quote_units s'
    else if c =? 0x0A then backslash :: js "n" ++ quote_units s'
    else if c =? 0x0D then backslash :: js "r" ++ quote_units s'
    else if c =? 0x09 then backslash :: js "t" ++ quote_units s'
    else if c <? 0x20 then escape c ++ quote_units s'
    else if Regex.is_high c then
      match s' with
      | l :: t =>
        if Regex.is_low l then c :: l :: quote_units t
        else escape c ++ quote_units s'
      | [] => escape c
      end
    else if Regex.is_low c then escape c ++ quote_units s'
    else c :: quote_units s'
  end.

Definition quote (s : jsstring) : jsstring :=
  quotation :: quote_units s ++ [quotation].

(** The text of a value; [None] is [undefined], which an array writes as
    [null] and an object leaves out. *)
Fixpoint stringify (v : value) : option jsstring :=
  match v with
  | VUndefined => None
  | VNull => Some (js "null")
  | VBool b => Some (if b then js "true" else js "false")
  | VNumber x =>
    Some (if PrimFloat.is_nan x || PrimFloat.is_infinity x then js "null"
          else number_text x)
  | VString s => Some (quote s)
  | VArray l =>
    Some (js "[" ++ JsString.join (js ",")
                      (map (fun e => match stringify e with
                                     | Some t => t
                                     | None => js "null"
                                     end) l)
          ++ js "]")
  | VObject props =>
    Some (js "{" ++ JsString.join (js ",")
                      (flat_map (fun kv => match stringify (snd kv) with
                                           | Some t => [quote (fst kv) ++ js ":" ++ t]
                                           | None => []
                                           end) props)
          ++ js "}")
  end.

(** What [setItem] stores of [JSON.stringify(v)]. *)
Definition stringify_text (v : value) : jsstring :=
  match stringify v with
  | Some t => t
  | None => js "undefined"
  end.

(** *** JSON.parse *)

Definition json_space (c : N) : bool :=
  (c =? 0x20) || (c =? 0x09) || (c =? 0x0A) || (c =? 0x0D).
Definition skip_space (s : jsstring) : jsstring := JsString.drop_while json_space s.

(** The digits of a part that must have some. *)
Definition some_digits (s : jsstring) : option (jsstring * jsstring) :=
  match span is_digit s with
  | ([], _) => None
  | found => Some found
  end.

(** A JSON number: [-]? int frac? exp?, where int has no leading zero. *)
Definition json_number (s : jsstring) : option (value * jsstring) :=
  let '(negative, s1) :=
    match s with 0x2D :: t => (true, t) | _ => (false, s) end in
  match some_digits s1 with
  | None => None
  | Some (int, s2) =>
    if JsString.startsWith int (js "0") && Nat.ltb 1 (length int) then None
    else
      let frac_part :=
        match s2 with
        | 0x2E :: t => some_digits t
        | _ => Some ([], s2)
        end in
      match frac_part with
      | None => None
      | Some (frac, s3) =>
        let exp_part :=
          match s3 with
          | c :: t =>
            if (c =? 0x65) || (c =? 0x45) then
              let '(eneg, s4) := sign t in
              match some_digits s4 with
              | None => None
              | Some (ds, rest) =>
                Some ((if eneg then - digits_value 0 ds
                       else digits_value 0 ds)%Z, rest)
              end
            else Some (0%Z, s3)
          | [] => Some (0%Z, s3)
          end in
        match exp_part with
        | None => None
        | Some (e, rest) =>
          Some (VNumber (float_of_decimal negative (digits_value 0 (int ++ frac))
                           (e - Z.of_nat (length frac))), rest)
        end
      end
  end.

Definition hex_value (s : jsstring) : option N :=
  option_map Z.to_N (radix_value 16 0 s).

Definition unescape (e : N) : option N :=
  if e =? quotation then Some quotation
  else if e =? backslash then Some backslash
  else if e =? 0x2F then Some 0x2F
  else if e =? 0x62 then Some 0x08
  else if e =? 0x66 then Some 0x0C
  else if e =? 0x6E then Some 0x0A
  else if e =? 0x72 then Some 0x0D
  else if e =? 0x74 then Some 0x09
  else None.

Definition prepend (u : N) (r : option (jsstring * jsstring))
  : option (jsstring * jsstring) :=
  match r with
  | Some (t, rest) => Some (u :: t, rest)
  | None => None
  end.

(** The units of a JSON string after its opening quote. *)
Fixpoint json_string (s : jsstring) : option (jsstring * jsstring) :=
  match s with
  | [] => None
  | c :: s1 =>
    if c =? quotation then Some ([], s1)
    else if c <? 0x20 then None
    else if c =? backslash then
      match s1 with
      | e :: s2 =>
        if e =? 0x75 then
          match s2 with
          | h1 :: h2 :: h3 :: h4 :: s3 =>
            match hex_value [h1; h2; h3; h4] with
            | Some u => prepend u (json_string s3)
            | None => None
            end
          | _ => None
          end
        else
          match unescape e with
          | Some u => prepend u (json_string s2)
          | None => None
          end
      | [] => None
      end
    else prepend c (json_string s1)
  end.

Definition literal (word : jsstring) (v : value) (s : jsstring)
  : option (value * jsstring) :=
  if JsString.startsWith s word then Some (v, skipn (length word) s) else None.

(** Values, the elements of an array after its bracket, the members of an
    object after its brace.  Every call takes one unit of [fuel], and a
    text of [n] units needs fewer than [2 * n + 2] calls. *)
Fixpoint json_value (fuel : nat) (s : jsstring) : option (value * jsstring) :=
  match fuel with
  | O => None
  | S fuel' =>
    match skip_space s with
    | [] => None
    | c :: s1 =>
      if c =? 0x5B then
        match skip_space s1 with
        | 0x5D :: rest => Some (VArray [], rest)
        | _ => json_elements fuel' s1 []
        end
      else if c =? 0x7B then
        match skip_space s1 with
        | 0x7D :: rest => Some (VObject [], rest)
        | _ => json_members fuel' s1 []
        end
      else if c =? quotation then
        match json_string s1 with
        | Some (t, rest) => Some (VString t, rest)
        | None => None
        end
      else if c =? 0x6E then literal (js "null") VNull (c :: s1)
      else if c =? 0x74 then literal (js "true") (VBool true) (c :: s1)
      else if c =? 0x66 then literal (js "false") (VBool false) (c :: s1)
      else json_number (c :: s1)
    end
  end
with json_elements (fuel : nat) (s : jsstring) (acc : list value)
  : option (value * jsstring) :=
  match fuel with
  | O => None
  | S fuel' =>
    match json_value fuel' s with
    | Some (v, rest) =>
      match skip_space rest with
      | 0x2C :: rest1 => json_elements fuel' rest1 (acc ++ [v])
      | 0x5D :: rest1 => Some (VArray (acc ++ [v]), rest1)
      | _ => None
      end
    | None => None
    end
  end
with json_members (fuel : nat) (s : jsstring) (acc : list (jsstring * value))
  : option (value * jsstring) :=
  match fuel with
  | O => None
  | S fuel' =>
    match skip_space s with
    | 0x22 :: s1 =>
      match json_string s1 with
      | Some (key, s2) =>
        match skip_space s2 with
        | 0x3A :: s3 =>
          match json_value fuel' s3 with
          | Some (v, rest) =>
            match skip_space rest with
            | 0x2C :: rest1 => json_members fuel' rest1 (Value.assign key v acc)
            | 0x7D :: rest1 => Some (VObject (Value.assign key v acc), rest1)
            | _ => None
            end
          | None => None
          end
        | _ => None
        end
      | None => None
      end
    | _ => None
    end
  end.

(** [JSON.parse(text)]; [None] is the [SyntaxError]. *)
Definition parse (text : jsstring) : option value :=
  match json_value (2 * length text + 2) text with
  | Some (v, rest) =>
    match skip_space rest with
    | [] => Some v
    | _ => None
    end
  | None => None
  end.

#[export] Instance runtime : Runtime := {|
  JSON_parse := parse;
  JSON_stringify := stringify_text;
  parseFloat v := parse_float (to_string v);
  ToNumber := to_number
|}.

End Engine.

(** ** The runs of the resolver, case by case *)

Module GeocoderSpec.
Import Geocoder.

(** The steps a run is made of. *)
Definition log (e : event) (s : state) : state :=
  {| GEOCODE_CACHE := GEOCODE_CACHE s; localStorage := localStorage s;
     trace := trace s ++ [e] |}.
Definition remember (name : jsstring) (v : value) (s : state) : state :=
  {| GEOCODE_CACHE := <[name := v]> (GEOCODE_CACHE s);
     localStorage := localStorage s; trace := trace s |}.
Definition store (key text : jsstring) (s : state) : state :=
  {| GEOCODE_CACHE := GEOCODE_CACHE s;
     localStorage := <[key := text]> (localStorage s); trace := trace s |}.
Definition forget (key : jsstring) (s : state) : state :=
  {| GEOCODE_CACHE := GEOCODE_CACHE s;
     localStorage := delete key (localStorage s); trace := trace s |}.

(** The events of a run from [s] to [s1]. *)
Definition new_events (s s1 : state) : list event :=
  skipn (length (trace s)) (trace s1).

Definition is_write (e : event) : bool :=
  match e with
  | MemorySet _ _ | StorageSet _ _ => true
  | _ => false
  end.

Definition destructurable (v : value) : bool :=
  match v with
  | VUndefined | VNull => false
  | _ => true
  end.

(** The [catch] of line 48. *)
Definition handler : exn -> M (option value) :=
  fun _ => bind (emit ConsoleError) (fun _ => ret None).

(** Unfolds the operations of the monad in a goal. *)
Ltac step_monad :=
  cbv beta iota delta
    [bind ret throw try_catch emit cache_has cache_get cache_set getItem
     setItem removeItem fetch json durable_lookup provider_lookup];
  cbn [GEOCODE_CACHE localStorage trace].

Section Runs.
Context {rt : Runtime} (net : network).

(** The coordinate made of the first match of [data]. *)
Definition coordinate (data : value) : value :=
  VObject [(js "lat", VNumber (parseFloat (Value.get (Value.first data) (js "lat"))));
           (js "lng", VNumber (parseFloat (Value.get (Value.first data) (js "lon"))))].

(** The durable layer has nothing to return for [name]: the entry is
    absent, empty, or does not parse, and then it is removed. *)
Inductive durable_miss (name : jsstring) (s : state) : state -> Prop :=
| miss_absent :
    localStorage s !! cache_key name = None ->
    durable_miss name s (log (StorageGet (cache_key name)) (log (MemoryHas name) s))
| miss_empty :
    localStorage s !! cache_key name = Some [] ->
    durable_miss name s (log (StorageGet (cache_key name)) (log (MemoryHas name) s))
| miss_malformed (text : jsstring) :
    localStorage s !! cache_key name = Some text ->
    text <> [] ->
    JSON_parse text = None ->
    durable_miss name s
      (forget (cache_key name)
         (log (StorageRemove (cache_key name))
            (log (StorageGet (cache_key name)) (log (MemoryHas name) s)))).

(** What the request to [url] made in state [s0] comes to. *)
Inductive provider_answer (name url : jsstring) (s0 : state)
  : completion value -> state -> Prop :=
| answer_network_error :
    net (requests s0) url = NetworkError ->
    provider_answer name url s0 (Return VNull) (log ConsoleError (log (Fetch url) s0))
| answer_status (body : jsstring) :
    net (requests s0) url = Response false body ->
    provider_answer name url s0 (Return VNull) (log (Fetch url) s0)
| answer_syntax_error (body : jsstring) :
    net (requests s0) url = Response true body ->
    JSON_parse body = None ->
    provider_answer name url s0 (Return VNull) (log ConsoleError (log (Fetch url) s0))
| answer_no_match (body : jsstring) (data : value) :
    net (requests s0) url = Response true body ->
    JSON_parse body = Some data ->
    has_matches data = false ->
    provider_answer name url s0 (Return VNull) (log (Fetch url) s0)
| answer_type_error (body : jsstring) (data : value) :
    net (requests s0) url = Response true body ->
    JSON_parse body = Some data ->
    has_matches data = true ->
    destructurable (Value.first data) = false ->
    provider_answer name url s0 (Return VNull) (log ConsoleError (log (Fetch url) s0))
| answer_match (body : jsstring) (data : value) :
    net (requests s0) url = Response true body ->
    JSON_parse body = Some data ->
    has_matches data = true ->
    destructurable (Value.first data) = true ->
    provider_answer name url s0 (Return (coordinate data))
      (log (Delay 1000)
         (store (cache_key name) (JSON_stringify (coordinate data))
            (log (StorageSet (cache_key name) (JSON_stringify (coordinate data)))
               (remember name (coordinate data)
                  (log (MemorySet name (coordinate data))
                     (log (Fetch url) s0)))))).

(** The runs of [geocodeCity(name)] for a non-empty [name]. *)
Inductive resolves (name : jsstring) (s : state) : completion value -> state -> Prop :=
| resolves_memory (v : value) :
    GEOCODE_CACHE s !! name = Some v ->
    resolves name s (Return v) (log (MemoryGet name) (log (MemoryHas name) s))
| resolves_durable (text : jsstring) (parsed : value) :
    GEOCODE_CACHE s !! name = None ->
    localStorage s !! cache_key name = Some text ->
    text <> [] ->
    JSON_parse text = Some parsed ->
    resolves name s (Return parsed)
      (remember name parsed
         (log (MemorySet name parsed)
            (log (StorageGet (cache_key name)) (log (MemoryHas name) s))))
| resolves_uri_error (s0 : state) :
    GEOCODE_CACHE s !! name = None ->
    durable_miss name s s0 ->
    encodeURIComponent name = None ->
    resolves name s (Throw URIError) s0
| resolves_provider (s0 : state) (q : jsstring) (r : completion value) (s1 : state) :
    GEOCODE_CACHE s !! name = None ->
    durable_miss name s s0 ->
    encodeURIComponent name = Some q ->
    provider_answer name (search_url q) s0 r s1 ->
    resolves name s r s1.

(** A response that gives no coordinate. *)
Definition failure (resp : response) : Prop :=
  resp = NetworkError
  \/ (exists body, resp = Response false body)
  \/ (exists body, resp = Response true body /\ JSON_parse body = None)
  \/ (exists body, resp = Response true body /\ JSON_parse body = Some (VArray [])).

End Runs.

(** The cases of a run, and the requests counted in each. *)
Ltac invert_run H :=
  inversion H; subst; clear H;
  repeat match goal with
         | Hm : durable_miss _ _ _ |- _ => inversion Hm; subst; clear Hm
         | Hp : provider_answer _ _ _ _ _ _ |- _ => inversion Hp; subst; clear Hp
         end.

Ltac count_requests :=
  unfold requests, log, remember, store, forget; cbn [trace];
  rewrite ?List.filter_app, ?length_app; cbn [List.filter is_fetch length]; lia.

(** Computes the events of a run from its final state. *)
Ltac events :=
  unfold new_events, log, remember, store, forget; cbn [trace];
  rewrite <- ?app_assoc; rewrite skipn_app, Nat.sub_diag, skipn_all;
  cbn [app skipn].



End GeocoderSpec.

(** ** Notions used to state the properties *)

Module Statements.
Import Regex MarkdownParser.

(** *** Lines and matchers *)

Definition LF_free (line : jsstring) : Prop :=
  forallb (fun c => negb (is_LF c)) line = true.

(** A matcher that treats continuations that agree alike, and one that
    succeeds only through its continuation. *)
Definition extensional (body : jsstring -> captures -> cont -> option state) : Prop :=
  forall s c k1 k2, (forall s' c', k1 s' c' = k2 s' c') -> body s c k1 = body s c k2.
Definition through_continuation
    (body : jsstring -> captures -> cont -> option state) : Prop :=
  forall s c, body s c (fun _ _ => None) = None.

(** *** The extractor *)

(** A line that [extractSection] takes for the header of one of the three
    sections: a second-level header whose text matches a section pattern. *)
Definition recognized_section_header (line : jsstring) : bool :=
  test h2_regex line
  && (test profile_header line || test location_header line
      || test timeline_header line).

(** The lines of the location section of a text. *)
Definition location_section_lines (markdown : jsstring) : list jsstring :=
  lines_of (extractSection markdown location_header).

(** A third-level header of the location section, and its text
    ([headerMatch[1]]). *)
Definition is_location_header (line : jsstring) : bool := test location_regex line.



(** *** The normalizer, in the words of its description *)








(** *** The resolver and the loop *)


(** A record of the result with the coordinate the resolver returned for
    it. *)
Definition kept := (Location.t * value)%type.
Definition resolved (k : kept) : value := App.merge (fst k) (snd k).

End Statements.

(** ** Sample inputs *)

Module Samples.

(** A location section with three headers, the last one open at the end of
    the text. *)
Definition three_headers : jsstring :=
  unlines [js "## 人生历程";
           js "### 出生地：碎叶城";
           js "- **时间**：701年";
           js "### 重要地点：长安";
           js "- **事迹**：供奉翰林";
           js "### 去世地：当涂"].

(** A profile whose era line uses the key 朝代, and the same with 时代. *)
Definition profile_chaodai : jsstring :=
  unlines [js "## 人物档案"; js "- **朝代**：唐朝"].
Definition profile_shidai : jsstring :=
  unlines [js "## 人物档案"; js "- **时代**：唐朝"].


(** A text with no section header. *)
Definition no_sections : jsstring :=
  unlines [js "# 李白"; js "### 出生地：碎叶城"; js "- **姓名**：李白"].

(** A record whose description gives the ancient and the modern name. *)
Definition jinling : Location.t :=
  {| Location.name := js "金陵"; Location.type := normal; Location.time := [];
     Location.desc := []; Location.significance := []; Location.quotes := [];
     Location.locationDesc := Some (js "金陵（今南京）") |}.

(** The resolver at the start of a session: both caches empty. *)
Definition empty_state : Geocoder.state :=
  {| Geocoder.GEOCODE_CACHE := ∅; Geocoder.localStorage := ∅; Geocoder.trace := [] |}.

(** The body of a response with one match. *)
Definition one_match (lat lon : jsstring) : jsstring :=
  Engine.stringify_text
    (VArray [VObject [(js "lat", VString lat); (js "lon", VString lon)]]).

(** A provider that finds nothing. *)
Definition no_match_network : network := fun _ _ => Response true (js "[]").

(** A provider that knows 西安 and nothing else. *)
Definition xian_network : network :=
  fun _ url =>
    if JsString.includes url (js "q=%E8%A5%BF%E5%AE%89&")
    then Response true (one_match (js "34.2610832") (js "108.9423363"))
    else Response true (js "[]").

(** The coordinate that answer gives. *)
Definition xian_coordinate : value :=
  VObject [(js "lat", VNumber (Engine.float_of_decimal false 342610832 (-7)));
           (js "lng", VNumber (Engine.float_of_decimal false 1089423363 (-7)))].


(** A session whose durable store holds an entry that does not parse. *)
Definition malformed_state : Geocoder.state :=
  {| Geocoder.GEOCODE_CACHE := ∅;
     Geocoder.localStorage := {[ Geocoder.cache_key (js "西安") := js "{oops" ]};
     Geocoder.trace := [] |}.

(** A biography with two locations: the first is known to the provider
    under its modern name, the second neither under its query nor under
    its name. *)
Definition two_locations : jsstring :=
  unlines [js "## 人生历程";
           js "### 重要地点：长安";
           js "- **位置**：长安（今西安）";
           js "### 重要地点：桃花源";
           js "- **位置**：武陵（今桃源）"].

(** The same biography with the emoji of the headers: 🟢 before the first
    location, 📍 before the second. *)
Definition two_locations_with_emoji : jsstring :=
  unlines [js "## 人生历程";
           js "### 🟢 重要地点：长安";
           js "- **位置**：长安（今西安）";
           js "### 📍 重要地点：桃花源";
           js "- **位置**：武陵（今桃源）"].

End Samples.

(** ** src/components/StoryMap.jsx: the map of a biography

    The component keeps a Leaflet map and the layers it drew on it.  Layers
    are objects with an identity: [layer.remove()] takes that one layer off
    the map.  A layer is therefore held with a number that no other layer
    has. *)

Module StoryMap.

Definition latlng := (value * value)%type.

(** What a layer shows.  The options that are the same for every layer of
    a kind (the white border of a marker, its radius, the dashes of the
    path) are left to the constructor. *)
Inductive layer : Type :=
| TileLayer (url : jsstring)
| CircleMarker (position : latlng) (fillColor : jsstring) (popup : jsstring)
| Polyline (path : list latlng).

(** [setView([35.8617, 104.1954], 4)] and [fitBounds(bounds, ...)] *)
Inductive view : Type :=
| China
| FitBounds (latlngs : list latlng).

Record state := {
  mapInstanceRef : bool;            (* [mapInstanceRef.current] holds a map *)
  layers : list (nat * layer);      (* the layers on the map, oldest first *)
  fresh : nat;                      (* the number of the next layer *)
  markersRef : list nat;            (* [markersRef.current] *)
  shown : view
}.

Definition physical_tiles : jsstring :=
  js "https://server.arcgisonline.com/ArcGIS/rest/services/World_Physical_Map/MapServer/tile/{z}/{y}/{x}".
Definition label_tiles : jsstring :=
  js "https://server.arcgisonline.com/ArcGIS/rest/services/Reference/World_Boundaries_and_Places/MapServer/tile/{z}/{y}/{x}".

(** The component before its first effect. *)
Definition unmounted : state :=
  {| mapInstanceRef := false; layers := []; fresh := 0; markersRef := [];
     shown := China |}.

(** The first effect (lines 9-28); the element of [mapRef] is there when
    effects run. *)
Definition initialize (s : state) : state :=
  if mapInstanceRef s then s
  else {| mapInstanceRef := true;
          layers := [(fresh s, TileLayer physical_tiles);
                     (S (fresh s), TileLayer label_tiles)];
          fresh := S (S (fresh s));
          markersRef := markersRef s;
          shown := China |}.

(** Its cleanup (lines 29-34): [map.remove()] destroys the map. *)
Definition cleanup (s : state) : state :=
  if mapInstanceRef s
  then {| mapInstanceRef := false; layers := []; fresh := fresh s;
          markersRef := markersRef s; shown := shown s |}
  else s.

(** [layer.remove()] *)
Definition remove_layer (s : state) (id : nat) : state :=
  {| mapInstanceRef := mapInstanceRef s;
     layers := List.filter (fun il => negb (Nat.eqb (fst il) id)) (layers s);
     fresh := fresh s; markersRef := markersRef s; shown := shown s |}.

(** [const l = L.circleMarker(...).addTo(map); markersRef.current.push(l)],
    and the same for a path. *)
Definition draw (l : layer) (s : state) : state :=
  {| mapInstanceRef := mapInstanceRef s;
     layers := layers s ++ [(fresh s, l)];
     fresh := S (fresh s);
     markersRef := markersRef s ++ [fresh s];
     shown := shown s |}.

(** Lines 43-44. *)
Definition clear (s : state) : state :=
  let s' := fold_left remove_layer (markersRef s) s in
  {| mapInstanceRef := mapInstanceRef s'; layers := layers s'; fresh := fresh s';
     markersRef := []; shown := shown s' |}.

Definition fitBounds (latlngs : list latlng) (s : state) : state :=
  {| mapInstanceRef := mapInstanceRef s; layers := layers s; fresh := fresh s;
     markersRef := markersRef s; shown := FitBounds latlngs |}.

Definition nullish (v : value) : bool :=
  match v with
  | VUndefined | VNull => true
  | _ => false
  end.

(** [v === 'text'] *)
Definition is_text (v : value) (text : jsstring) : bool :=
  match v with
  | VString s => JsString.eqb s text
  | _ => false
  end.

(** [v.length === 0] and the truth of [v.length], for a [v] that has
    properties. *)
Definition length_is_zero (v : value) : bool :=
  match v with
  | VArray l => Nat.eqb (length l) 0
  | VString s => Nat.eqb (length s) 0
  | VObject props =>
    match Value.lookup (js "length") props with
    | Some (VNumber x) => PrimFloat.eqb x 0
    | _ => false
    end
  | _ => false
  end.

Definition has_length (v : value) : bool :=
  match v with
  | VArray l => negb (Nat.eqb (length l) 0)
  | VString s => negb (Nat.eqb (length s) 0)
  | VObject props =>
    match Value.lookup (js "length") props with
    | Some len => Value.truthy len
    | None => false
    end
  | _ => false
  end.

(** Lines 57-59. *)
Definition color (loc : value) : jsstring :=
  let color := js "#3b82f6" in
  let color := if is_text (Value.get loc (js "type")) (js "birth")
               then js "#22c55e" else color in
  if is_text (Value.get loc (js "type")) (js "death") then js "#ef4444" else color.

Section Popup.
(** The conversion of a value to a string, which template literals
    apply. *)
Context (ToString : value -> jsstring).

Definition quotation_mark : jsstring := [0x22].
Definition indent (n : nat) : jsstring := repeat 0x20 n.

(** [<name style="...">] *)
Definition styled (name style : jsstring) : jsstring :=
  js "<" ++ name ++ js " style=" ++ quotation_mark ++ style ++ quotation_mark
  ++ js ">".

(** The template of lines 71-86, line by line. *)
Definition popupContent (loc : value) : jsstring :=
  let time := Value.get loc (js "time") in
  let type := Value.get loc (js "type") in
  let desc := Value.get loc (js "desc") in
  let quotes := Value.get loc (js "quotes") in
  unlines
    [ [];
      indent 8 ++ styled (js "div") (js "min-width: 200px;");
      indent 10
        ++ styled (js "h3") (js "font-weight: bold; font-size: 1.1em; margin-bottom: 4px;")
        ++ ToString (Value.get loc (js "name")) ++ js "</h3>";
      indent 10
        ++ styled (js "div") (js "font-size: 0.9em; color: #666; margin-bottom: 8px;");
      indent 12
        ++ (if Value.truthy time
            then js "<span>" ++ ToString time ++ js "</span>" else []);
      indent 12
        ++ (if is_text type (js "birth")
            then js " " ++ styled (js "span") (js "color:#22c55e") ++ js "(出生地)</span>"
            else []);
      indent 12
        ++ (if is_text type (js "death")
            then js " " ++ styled (js "span") (js "color:#ef4444") ++ js "(去世地)</span>"
            else []);
      indent 10 ++ js "</div>";
      indent 10
        ++ styled (js "p") (js "margin: 0; font-size: 0.95em; line-height: 1.5;")
        ++ (if Value.truthy desc then ToString desc else js "暂无详细描述")
        ++ js "</p>";
      indent 10
        ++ (if Value.truthy quotes && has_length quotes
            then unlines
                   [ [];
                     indent 12
                       ++ styled (js "div")
                            (js "margin-top: 8px; border-top: 1px solid #eee; padding-top: 6px;");
                     indent 14
                       ++ styled (js "em") (js "font-size: 0.85em; color: #555;")
                       ++ quotation_mark ++ ToString (Value.first quotes)
                       ++ quotation_mark ++ js "</em>";
                     indent 12 ++ js "</div>";
                     indent 10 ]
            else []);
      indent 8 ++ js "</div>";
      indent 6 ].

(** The marker of a record. *)
Definition marker (loc : value) : layer :=
  CircleMarker (Value.get loc (js "lat"), Value.get loc (js "lng"))
    (color loc) (popupContent loc).

(** [!loc.lat || !loc.lng] is false. *)
Definition located (loc : value) : bool :=
  Value.truthy (Value.get loc (js "lat")) && Value.truthy (Value.get loc (js "lng")).

(** The callback of [locations.forEach] (lines 50-89): reading a property
    of [undefined] or [null] throws. *)
Definition draw_location (loc : value) (latlngs : list latlng) (s : state)
  : Geocoder.completion (list latlng) * state :=
  if nullish loc then (Geocoder.Throw Geocoder.TypeError, s)
  else if negb (located loc) then (Geocoder.Return latlngs, s)
  else
    (Geocoder.Return (latlngs ++ [(Value.get loc (js "lat"), Value.get loc (js "lng"))]),
     draw (marker loc) s).

Fixpoint forEach (locations : list value) (latlngs : list latlng) (s : state)
  : Geocoder.completion (list latlng) * state :=
  match locations with
  | [] => (Geocoder.Return latlngs, s)
  | loc :: rest =>
    match draw_location loc latlngs s with
    | (Geocoder.Return latlngs', s') => forEach rest latlngs' s'
    | (Geocoder.Throw e, s') => (Geocoder.Throw e, s')
    end
  end.

(** The second effect (lines 38-110), run when [locations] changes.  Only
    arrays have [forEach]. *)
Definition update_markers (locations : value) (s : state)
  : Geocoder.completion unit * state :=
  if negb (mapInstanceRef s) then (Geocoder.Return tt, s)
  else
    let s := clear s in
    if negb (Value.truthy locations) || length_is_zero locations
    then (Geocoder.Return tt, s)
    else
      match locations with
      | VArray locs =>
        match forEach locs [] s with
        | (Geocoder.Return latlngs, s) =>
          let s := if Nat.ltb 1 (length latlngs) then draw (Polyline latlngs) s else s in
          let s := if Nat.ltb 0 (length latlngs) then fitBounds latlngs s else s in
          (Geocoder.Return tt, s)
        | (Geocoder.Throw e, s) => (Geocoder.Throw e, s)
        end
      | _ => (Geocoder.Throw Geocoder.TypeError, s)
      end.

End Popup.

End StoryMap.

(** ** src/utils/ai.js: reading the answers of the language model

    The prompts are not part of the sources at hand, and the model is
    outside the program: the functions are embedded from the point where
    the response to their request is there. *)

Module Ai.

Section WithHost.
Context {rt : Runtime}.

(** [callLLM] (lines 27-58) on the response to its request.  Every
    exception is caught and gives [null]: the failed request, the status,
    a body that is no JSON, and a property read of [null]. *)
Definition callLLM (resp : response) : value :=
  match resp with
  | NetworkError => VNull
  | Response ok body =>
    if negb ok then VNull
    else
      match JSON_parse body with
      | None => VNull
      | Some data =>
        if StoryMap.nullish data then VNull
        else
          let choices := Value.get data (js "choices") in
          if Geocoder.has_matches choices then
            let choice := Value.first choices in
            if StoryMap.nullish choice then VNull
            else
              let message := Value.get choice (js "message") in
              let content :=
                if StoryMap.nullish message then VUndefined
                else Value.get message (js "content") in
              if Value.truthy content then content else VString []
          else if Value.truthy (Value.get data (js "content"))
          then Value.get data (js "content")
          else if Value.truthy (Value.get data (js "text"))
          then Value.get data (js "text")
          else VString []
      end
  end.

(** [/\[.*\]/s] *)
Definition bracket_regex : Regex.t :=
  Regex.Seq (Regex.Lit (js "["))
    (Regex.Seq (Regex.Star (Regex.Class (fun _ => true))) (Regex.Lit (js "]"))).

(** [data.filter(item => typeof item === 'string' && item.trim())] *)
Fixpoint names (items : list value) : list jsstring :=
  match items with
  | [] => []
  | VString s :: rest =>
    if JsString.truthy (JsString.trim s) then s :: names rest else names rest
  | _ :: rest => names rest
  end.

(** [extractHistoricalFigures] (lines 60-86) on what [callLLM] returned.
    Only strings have [match]; calling it on another value, and a
    [JSON.parse] that fails, throw inside the [try]. *)
Definition figures (result : value) : list jsstring :=
  if negb (Value.truthy result) then []
  else
    match result with
    | VString text =>
      let fallback :=
        let clean := JsString.trim text in
        if JsString.truthy clean then [clean] else [] in
      match Regex.exec bracket_regex text with
      | Some m =>
        match JSON_parse (Regex.matched m) with
        | Some (VArray data) => names data
        | Some _ => fallback
        | None => []
        end
      | None => fallback
      end
    | _ => []
    end.

Definition extractHistoricalFigures (resp : response) : list jsstring :=
  figures (callLLM resp).

End WithHost.

End Ai.

(** ** Notions used to state further properties *)

Module Coverage.
Import Regex MarkdownParser.

(** The lines of the profile and of the timeline section. *)
Definition profile_lines (markdown : jsstring) : list jsstring :=
  lines_of (extractSection markdown profile_header).
Definition timeline_lines (markdown : jsstring) : list jsstring :=
  lines_of (extractSection markdown timeline_header).

(** The six fields of the profile: the text a line must include, the key
    pattern, and the property that is assigned. *)
Definition profile_fields : list (jsstring * jsstring * (Person.t -> field)) :=
  [(js "**姓名**", js "姓名", Person.name);
   (js "**时代**", js "时代|朝代", Person.era);
   (js "**出生**", js "出生", Person.birth);
   (js "**去世**", js "去世", Person.death);
   (js "**享年**", js "享年", Person.age);
   (js "**主要身份**", js "主要身份", Person.roles)].

(** The last of the lines that include [mark]. *)
Definition last_line_with (mark : jsstring) (lines : list jsstring) : option jsstring :=
  List.find (fun line => JsString.includes line mark) (rev lines).

(** What a line assigns to a field. *)
Definition field_of_line (line keyPattern : jsstring) : field :=
  match extractField line keyPattern with
  | Some v => Text v
  | None => Null
  end.

(** A line of the overview that is added to the introduction. *)
Definition overview_text (line : jsstring) : bool :=
  JsString.truthy (JsString.trim line) && negb (JsString.startsWith line (js "#")).

(** The header row of the timeline table, a row of the table, and the
    cells of a row. *)
Definition is_header_row (line : jsstring) : bool :=
  JsString.startsWith (JsString.trim line) (js "|") && JsString.includes line (js "年份").
Definition is_row (line : jsstring) : bool :=
  JsString.startsWith (JsString.trim line) (js "|")
  && negb (JsString.includes line (js "年份"))
  && negb (JsString.includes line (js "---")).
Definition cells (line : jsstring) : list jsstring :=
  List.filter JsString.truthy (map JsString.trim (JsString.split (N.eqb bar) line)).


(** A text that is trimmed and not empty. *)
Definition filled (s : jsstring) : Prop := JsString.trim s = s /\ s <> [].

(** The texts of a record: trimmed, and the quotes not empty. *)
Definition clean_record (l : Location.t) : Prop :=
  JsString.trim (Location.time l) = Location.time l
  /\ JsString.trim (Location.desc l) = Location.desc l
  /\ JsString.trim (Location.significance l) = Location.significance l
  /\ Forall filled (Location.quotes l).

(** A string without a surrogate half that has no partner. *)
Fixpoint well_formed (s : jsstring) : bool :=
  match s with
  | [] => true
  | c :: s' =>
    if is_high c then
      match s' with
      | l :: s'' => is_low l && well_formed s''
      | [] => false
      end
    else negb (is_low c) && well_formed s'
  end.

(** A string of 16-bit code units. *)
Definition code_units (s : jsstring) : Prop := Forall (fun c => c < 0x10000) s.

(** The characters of an encoded query. *)
Definition url_safe (c : N) : bool := Geocoder.unreserved c || (c =? 0x25).

(** The session after a reload of the page: the in-memory cache is empty,
    the durable store is as it was. *)
Definition reloaded (s : Geocoder.state) : Geocoder.state :=
  {| Geocoder.GEOCODE_CACHE := ∅;
     Geocoder.localStorage := Geocoder.localStorage s;
     Geocoder.trace := Geocoder.trace s |}.

(** The names of the properties of an object, in order. *)
Definition keys (props : list (jsstring * value)) : list jsstring := map fst props.

(** The layers of the map other than its tiles, oldest first. *)
Definition is_tile (l : StoryMap.layer) : bool :=
  match l with
  | StoryMap.TileLayer _ => true
  | _ => false
  end.
Definition drawn (s : StoryMap.state) : list StoryMap.layer :=
  List.filter (fun l => negb (is_tile l)) (map snd (StoryMap.layers s)).

(** Every layer drawn on the map is one the component remembers, and the
    numbers of the layers are below the next one. *)
Definition tidy (s : StoryMap.state) : Prop :=
  Forall (fun il => (fst il < StoryMap.fresh s)%nat
                    /\ (is_tile (snd il) = false -> In (fst il) (StoryMap.markersRef s)))
    (StoryMap.layers s)
  /\ NoDup (map fst (StoryMap.layers s)).

(** The positions of the records that get a marker, and what the effect
    draws for a list of records. *)
Definition position (loc : value) : StoryMap.latlng :=
  (Value.get loc (js "lat"), Value.get loc (js "lng")).
Definition picture (ToString : value -> jsstring) (locations : list value)
  : list StoryMap.layer :=
  let located := List.filter StoryMap.located locations in
  map (StoryMap.marker ToString) located
  ++ (if Nat.ltb 1 (length located) then [StoryMap.Polyline (map position located)] else []).

(** A number that counts as a coordinate for the map: not zero, not NaN. *)
Definition visible_number (x : float) : bool :=
  negb (PrimFloat.eqb x 0 || PrimFloat.is_nan x).

(** The square brackets, and the input after the last closing one. *)
Definition open_bracket : N := 0x5B.
Definition close_bracket : N := 0x5D.

Fixpoint after_last_bracket (s : jsstring) : option jsstring :=
  match s with
  | [] => None
  | c :: s' =>
    match after_last_bracket s' with
    | Some rest => Some rest
    | None => if c =? close_bracket then Some s' else None
    end
  end.

(** What [extractHistoricalFigures] returns when its answer has no list:
    the answer itself, trimmed, unless it is blank. *)
Definition whole_answer (text : jsstring) : list jsstring :=
  if JsString.truthy (JsString.trim text) then [JsString.trim text] else [].

(** A response that [callLLM] cannot read. *)
Definition unreadable {rt : Runtime} (resp : response) : Prop :=
  resp = NetworkError
  \/ (exists body, resp = Response false body)
  \/ (exists body, resp = Response true body /\ JSON_parse body = None).

End Coverage.

(** ** More sample inputs *)

Module MoreSamples.

(** A biography whose location section is followed by another section. *)
Definition closed_section : jsstring :=
  unlines [js "## 人生历程"; js "### 重要地点：长安"; js "## 历史影响"; js "### 重要地点：洛阳"].
Definition closed_section_other_end : jsstring :=
  unlines [js "## 人生历程"; js "### 重要地点：长安"; js "## 历史影响"; js "- **位置**：洛阳"].

(** A location with every field. *)
Definition full_record : jsstring :=
  unlines [js "## 人生历程";
           js "### 重要地点：黄鹤楼";
           js "- **时间**： 730年 ";
           js "- **事迹**：送孟浩然之广陵";
           js "- **意义**：留下名篇";
           js "- **名句**：故人西辞黄鹤楼； 烟花三月下扬州 ；；";
           js "- **位置**：江夏（今武汉）"].

(** A timeline table. *)
Definition table : jsstring :=
  unlines [js "## 生平时间线";
           js "| 年份 | 年龄 | 事件 |";
           js "|------|------|------|";
           js "| 701年 | 0岁 | 出生于碎叶城 |";
           js "| 762年 | 61岁 | 病逝于当涂 |"].
Definition table_without_header : jsstring :=
  unlines [js "## 生平时间线";
           js "| 701年 | 0岁 | 出生于碎叶城 |"].

(** A name that starts with half of an emoji. *)
Definition half_emoji_name : jsstring := 0xDFE2 :: js " 长安".

(** A session whose durable store knows 西安 from an earlier visit. *)
Definition stored_text : jsstring :=
  Engine.stringify_text Samples.xian_coordinate.
Definition returning_state : Geocoder.state :=
  {| Geocoder.GEOCODE_CACHE := ∅;
     Geocoder.localStorage := {[ Geocoder.cache_key (js "西安") := stored_text ]};
     Geocoder.trace := [] |}.

(** A session that knows 洛阳 in both layers. *)
Definition luoyang_state : Geocoder.state :=
  {| Geocoder.GEOCODE_CACHE := {[ js "洛阳" := VNull ]};
     Geocoder.localStorage := {[ Geocoder.cache_key (js "洛阳") := js "null" ]};
     Geocoder.trace := [] |}.

(** A map that has been set up and shows nothing yet. *)
Definition empty_map : StoryMap.state := StoryMap.initialize StoryMap.unmounted.

(** Two records with a coordinate and one on the equator. *)
Definition place (name type : jsstring) (lat lng : float) : value :=
  VObject [(js "name", VString name); (js "type", VString type);
           (js "lat", VNumber lat); (js "lng", VNumber lng)].
Definition three_places : list value :=
  [place (js "长安") (js "birth") 34.25%float 108.5%float;
   place (js "基多") (js "normal") 0%float (-78.5)%float;
   place (js "洛阳") (js "death") 34.625%float 112.5%float].

(** An answer of the model with one list, and one with two. *)
Definition one_list : jsstring :=
  js "名单：[" ++ StoryMap.quotation_mark ++ js "李白" ++ StoryMap.quotation_mark ++ js "]。".
Definition two_lists : jsstring :=
  js "[" ++ StoryMap.quotation_mark ++ js "李白" ++ StoryMap.quotation_mark ++ js "] 和 ["
  ++ StoryMap.quotation_mark ++ js "杜甫" ++ StoryMap.quotation_mark ++ js "]".

End MoreSamples.


(** * Properties *)

(** ** Strings and lines *)

Section StringFacts.
Import JsString.

Lemma eqb_spec (a b : jsstring) : eqb a b = true <-> a = b.
Proof.
  revert b; induction a as [|x a IH]; intros [|y b]; simpl; split;
    try congruence; try reflexivity.
  - intros H. apply andb_true_iff in H as [Hx Hab].
    apply N.eqb_eq in Hx. apply IH in Hab. congruence.
  - intros H. injection H as -> ->. rewrite N.eqb_refl. simpl. now apply IH.
Qed.

Lemma eqb_refl (a : jsstring) : eqb a a = true.
Proof. now apply eqb_spec. Qed.

Lemma truthy_false (s : jsstring) : truthy s = false <-> s = [].
Proof. destruct s; simpl; split; congruence. Qed.


(** Dropping at the front leaves the end of the string alone. *)
Lemma drop_while_rev_drop_while (p : N -> bool) (s : jsstring) :
  drop_while p (rev (drop_while p (rev (drop_while p s))))
  = rev (drop_while p (rev (drop_while p s))).
Proof.
  induction s as [|c s IH]; simpl; [reflexivity|].
  destruct (p c) eqn:E; [exact IH|].
  simpl.
  assert (H : forall t : jsstring,
             exists u, rev (drop_while p (t ++ [c])) = c :: u).
  { intros t. induction t as [|x t IHt]; simpl.
    - rewrite E. simpl. now exists [].
    - destruct (p x); [exact IHt|].
      simpl. destruct (rev (t ++ [c])) as [|y w] eqn:Er.
      + apply (f_equal (@length N)) in Er. rewrite length_rev, length_app in Er.
        simpl in Er. lia.
      + rewrite rev_app_distr in Er. simpl in Er. injection Er as <- <-.
        now exists (rev t ++ [x]). }
  destruct (H (rev s)) as [u Hu]. rewrite Hu. simpl. now rewrite E.
Qed.

(** [s.trim().trim()] is [s.trim()]. *)
Lemma trim_trim (s : jsstring) : trim (trim s) = trim s.
Proof.
  unfold trim. rewrite drop_while_rev_drop_while.
  rewrite rev_involutive. apply drop_while_rev_drop_while.
Qed.


(** No piece of a split holds a separator. *)
Lemma split_pieces (sep : N -> bool) (s : jsstring) :
  Forall (fun piece => forallb (fun c => negb (sep c)) piece = true) (split sep s).
Proof.
  induction s as [|c s IH]; simpl.
  - constructor; [reflexivity|constructor].
  - destruct (sep c) eqn:E.
    + constructor; [reflexivity|exact IH].
    + destruct (split sep s) as [|l ls]; inversion IH; subst.
      * constructor; [simpl; now rewrite E|constructor].
      * constructor; [simpl; rewrite E; simpl; assumption|assumption].
Qed.

Lemma split_clean (sep : N -> bool) (s : jsstring) :
  forallb (fun c => negb (sep c)) s = true -> split sep s = [s].
Proof.
  induction s as [|c s IH]; simpl; [reflexivity|].
  intros H. apply andb_true_iff in H as [Hc Hs].
  apply negb_true_iff in Hc. rewrite Hc, (IH Hs). reflexivity.
Qed.

Lemma split_app_sep (sep : N -> bool) (a b : jsstring) (c : N) :
  forallb (fun c => negb (sep c)) a = true -> sep c = true ->
  split sep (a ++ c :: b) = a :: split sep b.
Proof.
  intros Ha Hc. induction a as [|x a IH]; simpl.
  - now rewrite Hc.
  - simpl in Ha. apply andb_true_iff in Ha as [Hx Ha].
    apply negb_true_iff in Hx. rewrite Hx, (IH Ha). reflexivity.
Qed.


Lemma drop_while_all (p : N -> bool) (s : jsstring) :
  forallb p s = true -> drop_while p s = [].
Proof.
  induction s as [|c s IH]; simpl; [reflexivity|].
  destruct (p c); simpl; [exact IH|discriminate].
Qed.




Lemma trim_blank (s : jsstring) : forallb is_space s = true -> trim s = [].
Proof. intros H. unfold trim. now rewrite (drop_while_all _ _ H). Qed.

End StringFacts.

Lemma Forall_false_of_forallb {A} (f : A -> bool) (l : list A) :
  forallb (fun x => negb (f x)) l = true -> Forall (fun x => f x = false) l.
Proof.
  induction l as [|x l IH]; simpl; intros H; constructor.
  - apply andb_true_iff in H as [H _]. now apply negb_true_iff.
  - apply IH. now apply andb_true_iff in H as [_ H].
Qed.

(** [lines.join('\n').split('\n')] gives the lines back. *)
Lemma lines_of_unlines (ls : list jsstring) :
  ls <> [] -> Forall Statements.LF_free ls -> lines_of (unlines ls) = ls.
Proof.
  unfold lines_of, unlines.
  induction ls as [|l ls IH]; [congruence|].
  intros _ Hall. inversion Hall as [|? ? Hl Hls]; subst.
  destruct ls as [|l' ls'].
  - simpl. now apply split_clean.
  - change (JsString.join [LF] (l :: l' :: ls'))
      with (l ++ LF :: JsString.join [LF] (l' :: ls')).
    rewrite split_app_sep; [|exact Hl|reflexivity].
    f_equal. apply IH; [congruence|assumption].
Qed.

Lemma lines_of_LF_free (text : jsstring) :
  Forall Statements.LF_free (lines_of text).
Proof. apply split_pieces. Qed.

(** ** The extractor *)

Module ParserFacts.
Import Regex MarkdownParser Statements.

(** *** Sections *)

(** The lines [extractSection] keeps are lines of the text. *)
Lemma extractSection_loop_incl (hp : Regex.t) (lines : list jsstring) :
  forall inSection content,
    incl (extractSection_loop hp lines inSection content) (content ++ lines).
Proof.
  induction lines as [|line rest IH]; intros inSection content; simpl.
  - rewrite app_nil_r. apply incl_refl.
  - destruct (test h2_regex line).
    + destruct (test hp line).
      * intros x Hx. apply IH in Hx. apply in_app_iff in Hx as [H|H];
          apply in_app_iff; [now left|right; now right].
      * destruct inSection.
        -- intros x Hx. apply in_app_iff. now left.
        -- intros x Hx. apply IH in Hx. apply in_app_iff in Hx as [H|H];
             apply in_app_iff; [now left|right; now right].
    + destruct inSection.
      * intros x Hx. apply IH in Hx. rewrite <- app_assoc in Hx. exact Hx.
      * intros x Hx. apply IH in Hx. apply in_app_iff in Hx as [H|H];
          apply in_app_iff; [now left|right; now right].
Qed.

(** Without a header of the section, nothing is collected. *)
Lemma extractSection_loop_outside (hp : Regex.t) (lines : list jsstring) :
  Forall (fun line => test h2_regex line && test hp line = false) lines ->
  forall content, extractSection_loop hp lines false content = content.
Proof.
  induction 1 as [|line rest Hline _ IH]; intros content; simpl; [reflexivity|].
  destruct (test h2_regex line); simpl in Hline.
  - rewrite Hline. apply IH.
  - apply IH.
Qed.

Lemma extractSection_outside (hp : Regex.t) (text : jsstring) :
  Forall (fun line => test h2_regex line && test hp line = false) (lines_of text) ->
  extractSection text hp = [].
Proof.
  intros H. unfold extractSection. now rewrite extractSection_loop_outside.
Qed.

(** The section, read back as lines, is what the loop collected. *)
Lemma extractSection_lines (hp : Regex.t) (text : jsstring) :
  extractSection_loop hp (lines_of text) false [] <> [] ->
  lines_of (extractSection text hp) = extractSection_loop hp (lines_of text) false [].
Proof.
  intros Hne. unfold extractSection. apply lines_of_unlines; [exact Hne|].
  apply List.Forall_forall. intros l Hl.
  apply extractSection_loop_incl in Hl. simpl in Hl.
  pose proof (lines_of_LF_free text) as Hall.
  rewrite List.Forall_forall in Hall. now apply Hall.
Qed.

(** *** Location records *)



(** A header line adds one record to what the loop will have flushed at
    the end; any other line adds none. *)
Lemma flush_step_header st line m :
  exec location_regex line = Some m ->
  flush (location_step st line) = flush st ++ [open_location (group 1 m)].
Proof. intros H. unfold location_step. rewrite H. reflexivity. Qed.

Lemma flush_step_other st line :
  exec location_regex line = None ->
  length (flush (location_step st line)) = length (flush st).
Proof.
  intros H. unfold location_step. rewrite H. unfold flush. simpl.
  destruct (currentLocation st); simpl; rewrite ?length_app; reflexivity.
Qed.

Lemma flush_fold_length (lines : list jsstring) :
  forall st,
    length (flush (fold_left location_step lines st))
    = (length (flush st) + length (List.filter is_location_header lines))%nat.
Proof.
  induction lines as [|line rest IH]; intros st; simpl; [lia|].
  rewrite IH. unfold is_location_header, test.
  destruct (exec location_regex line) as [m|] eqn:E.
  - rewrite (flush_step_header _ _ _ E), length_app. simpl. lia.
  - rewrite (flush_step_other _ _ E). lia.
Qed.




(** A property of the records that headers open and field lines keep
    holds of every record of the result. *)
Lemma flush_fold_invariant (P : Location.t -> Prop) :
  (forall h, P (open_location h)) ->
  (forall line l, P l -> P (location_fields line l)) ->
  forall lines st,
    (forall r, In r (flush st) -> P r) ->
    forall r, In r (flush (fold_left location_step lines st)) -> P r.
Proof.
  intros Hopen Hfields. induction lines as [|line rest IH]; intros st Hst r Hr.
  - now apply Hst.
  - simpl in Hr. apply IH in Hr; [exact Hr|]. clear Hr r. intros r Hr.
    destruct (exec location_regex line) as [m|] eqn:E.
    + rewrite (flush_step_header _ _ _ E) in Hr.
      apply in_app_iff in Hr as [Hr|[<-|[]]]; [now apply Hst|apply Hopen].
    + unfold location_step in Hr. rewrite E in Hr. unfold flush in *.
      simpl in Hr. destruct (currentLocation st) as [cur|]; simpl in Hr.
      * apply in_app_iff in Hr as [Hr|[<-|[]]].
        -- apply Hst. apply in_app_iff. now left.
        -- apply Hfields, Hst. apply in_app_iff. right. now left.
      * now apply Hst.
Qed.

Lemma locations_invariant (P : Location.t -> Prop) :
  (forall h, P (open_location h)) ->
  (forall line l, P l -> P (location_fields line l)) ->
  forall markdown r, In r (locations (parseMarkdown markdown)) -> P r.
Proof.
  intros Hopen Hfields markdown r. unfold parseMarkdown.
  destruct (negb (JsString.truthy markdown)); simpl; [tauto|].
  unfold parse_locations.
  destruct (JsString.truthy (extractSection markdown location_header));
    [|simpl; tauto].
  apply flush_fold_invariant; auto. simpl. tauto.
Qed.

(** What [extractField] returns is trimmed. *)
Lemma extractField_trimmed line pat v :
  extractField line pat = Some v -> JsString.trim v = v.
Proof.
  unfold extractField. destruct (exec (field_regex pat) line); [|discriminate].
  intros [= <-]. apply trim_trim.
Qed.



End ParserFacts.

Module ParserTheorems.
Import Regex MarkdownParser Statements ParserFacts.

(** C2. [parseMarkdown] is a function on strings: it has a result on every
    input (no step of it can throw, and its loops are over the lines of the
    text).  On a text none of whose lines is a recognized section header the
    result has no location, no timeline entry, a person without any field,
    and an empty introduction. *)
Theorem parseMarkdown_without_sections (markdown : jsstring) :
  Forall (fun line => recognized_section_header line = false) (lines_of markdown) ->
  locations (parseMarkdown markdown) = []
  /\ timeline (parseMarkdown markdown) = []
  /\ person (parseMarkdown markdown) = Person.empty
  /\ intro (parseMarkdown markdown) = [].
Proof.
  intros H.
  assert (Hsec : forall hp,
             (forall line, recognized_section_header line = false ->
                           test h2_regex line && test hp line = false) ->
             extractSection markdown hp = []).
  { intros hp Hhp. apply extractSection_outside.
    eapply List.Forall_impl; [|exact H]. exact Hhp. }
  assert (Hp : extractSection markdown profile_header = []).
  { apply Hsec. unfold recognized_section_header. intros line Hr.
    destruct (test h2_regex line); [|reflexivity]. simpl in *.
    apply orb_false_iff in Hr as [Hr _]. now apply orb_false_iff in Hr as [Hr _]. }
  assert (Hl : extractSection markdown location_header = []).
  { apply Hsec. unfold recognized_section_header. intros line Hr.
    destruct (test h2_regex line); [|reflexivity]. simpl in *.
    apply orb_false_iff in Hr as [Hr _]. now apply orb_false_iff in Hr as [_ Hr]. }
  assert (Ht : extractSection markdown timeline_header = []).
  { apply Hsec. unfold recognized_section_header. intros line Hr.
    destruct (test h2_regex line); [|reflexivity]. simpl in *.
    now apply orb_false_iff in Hr as [_ Hr]. }
  unfold parseMarkdown.
  destruct (negb (JsString.truthy markdown)); [repeat split|].
  unfold parse_profile, parse_locations, parse_timeline.
  rewrite Hp, Hl, Ht. simpl. repeat split.
Qed.

Lemma parseMarkdown_without_sections_witness :
  Forall (fun line => recognized_section_header line = false)
    (lines_of Samples.no_sections)
  /\ locations (parseMarkdown Samples.no_sections) = []
  /\ timeline (parseMarkdown Samples.no_sections) = []
  /\ person (parseMarkdown Samples.no_sections) = Person.empty
  /\ intro (parseMarkdown Samples.no_sections) = [].
Proof.
  assert (H : Forall (fun line => recognized_section_header line = false)
                (lines_of Samples.no_sections)).
  { apply Forall_false_of_forallb. vm_compute. reflexivity. }
  split; [exact H|].
  exact (parseMarkdown_without_sections Samples.no_sections H).
Defined.

(** C3. The extractor returns one record per third-level header line of
    the location section: the record still open when the section ends (at
    the next section or at the end of the text) is appended like the
    others. *)
Theorem one_record_per_location_header (markdown : jsstring) :
  length (locations (parseMarkdown markdown))
  = length (List.filter is_location_header (location_section_lines markdown)).
Proof.
  unfold location_section_lines, parseMarkdown.
  destruct (JsString.truthy markdown) eqn:Em; simpl.
  - unfold parse_locations.
    destruct (JsString.truthy (extractSection markdown location_header)) eqn:Es.
    + rewrite flush_fold_length. reflexivity.
    + apply truthy_false in Es. rewrite Es. vm_compute. reflexivity.
  - apply truthy_false in Em. subst markdown. vm_compute. reflexivity.
Qed.

(** Three headers in a row, none after the last: three records. *)
Example three_headers_three_records :
  map Location.name (locations (parseMarkdown Samples.three_headers))
  = [js "碎叶城"; js "长安"; js "当涂"].
Proof. vm_compute. reflexivity. Qed.

(** C4, at the input where the code departs from it: the era line with the
    key 朝代 leaves [person.era] unset, because the assignment is guarded
    by [line.includes("**时代**")]; the same line with the key 时代 sets it. *)
Theorem era_key_chaodai_not_read :
  Person.era (person (parseMarkdown Samples.profile_chaodai)) = Absent
  /\ extractField (js "- **朝代**：唐朝") (js "时代|朝代") = Some (js "唐朝")
  /\ Person.era (person (parseMarkdown Samples.profile_shidai)) = Text (js "唐朝").
Proof. vm_compute. repeat split. Qed.




End ParserTheorems.

(** ** The matcher *)

Module RegexFacts.
Import Regex Statements.

Lemma greedy_rounds_ext body (Hb : extensional body) k1 k2 n :
  (forall s c, k1 s c = k2 s c) ->
  forall s c, greedy_rounds body k1 n s c = greedy_rounds body k2 n s c.
Proof.
  intros Hk. induction n as [|n IH]; intros s c; simpl; [apply Hk|].
  rewrite (Hb s c _ (fun s' c' =>
             if Nat.ltb (length s') (length s)
             then greedy_rounds body k2 n s' c' else None)).
  - now rewrite Hk.
  - intros s' c'. destruct (Nat.ltb (length s') (length s)); [apply IH|reflexivity].
Qed.

Lemma lazy_rounds_ext body (Hb : extensional body) k1 k2 n :
  (forall s c, k1 s c = k2 s c) ->
  forall s c, lazy_rounds body k1 n s c = lazy_rounds body k2 n s c.
Proof.
  intros Hk. induction n as [|n IH]; intros s c; simpl; [apply Hk|].
  rewrite Hk. destruct (k2 s c); [reflexivity|].
  apply Hb. intros s' c'.
  destruct (Nat.ltb (length s') (length s)); [apply IH|reflexivity].
Qed.

Lemma run_ext n0 r : extensional (run n0 r).
Proof.
  induction r as [|p|p|r1 IH1 r2 IH2|r1 IH1 r2 IH2|r IH|r IH|i r IH|];
    intros s c k1 k2 Hk; simpl.
  - apply Hk.
  - destruct s as [|x s]; [reflexivity|]. destruct (p x); [apply Hk|reflexivity].
  - destruct s as [|h [|l s]]; [reflexivity| |].
    + destruct (p h); [apply Hk|reflexivity].
    + destruct (is_high h && is_low l).
      * destruct (p (pair_code_point h l)); [apply Hk|reflexivity].
      * destruct (p h); [apply Hk|reflexivity].
  - apply IH1. intros s' c'. now apply IH2.
  - rewrite (IH1 s c k1 k2 Hk), (IH2 s c k1 k2 Hk). reflexivity.
  - now apply greedy_rounds_ext.
  - now apply lazy_rounds_ext.
  - apply IH. intros s' c'. apply Hk.
  - destruct (Nat.eqb (length s) n0); [apply Hk|reflexivity].
Qed.

Lemma greedy_rounds_fail body (Hb : extensional body)
    (Hf : through_continuation body) n :
  forall s c, greedy_rounds body (fun _ _ => None) n s c = None.
Proof.
  induction n as [|n IH]; intros s c; simpl; [reflexivity|].
  rewrite (Hb s c _ (fun _ _ => None)); [now rewrite Hf|].
  intros s' c'. destruct (Nat.ltb (length s') (length s)); [apply IH|reflexivity].
Qed.

Lemma lazy_rounds_fail body (Hb : extensional body)
    (Hf : through_continuation body) n :
  forall s c, lazy_rounds body (fun _ _ => None) n s c = None.
Proof.
  induction n as [|n IH]; intros s c; simpl; [reflexivity|].
  rewrite (Hb s c _ (fun _ _ => None)); [now rewrite Hf|].
  intros s' c'. destruct (Nat.ltb (length s') (length s)); [apply IH|reflexivity].
Qed.

Lemma run_fail n0 r : through_continuation (run n0 r).
Proof.
  induction r as [|p|p|r1 IH1 r2 IH2|r1 IH1 r2 IH2|r IH|r IH|i r IH|];
    intros s c; simpl.
  - reflexivity.
  - destruct s as [|x s]; [reflexivity|]. now destruct (p x).
  - destruct s as [|h [|l s]]; [reflexivity| |].
    + now destruct (p h).
    + destruct (is_high h && is_low l); [now destruct (p _)|now destruct (p h)].
  - rewrite (run_ext n0 r1 s c _ (fun _ _ => None)); [apply IH1|].
    intros s' c'. apply IH2.
  - now rewrite IH1, IH2.
  - apply greedy_rounds_fail; [apply run_ext|exact IH].
  - apply lazy_rounds_fail; [apply run_ext|exact IH].
  - apply IH.
  - now destruct (Nat.eqb (length s) n0).
Qed.

(** The number of rounds allowed never cuts a star short: any bound from
    the length of the input on gives the same result. *)
Lemma greedy_rounds_enough body (Hb : extensional body)
    (Hf : through_continuation body) k n :
  forall m s c, (length s <= n)%nat -> (length s <= m)%nat ->
    greedy_rounds body k n s c = greedy_rounds body k m s c.
Proof.
  induction n as [|n IH]; intros [|m] s c Hn Hm; simpl; try reflexivity.
  - destruct s; [|simpl in Hn; lia].
    rewrite (Hb [] c _ (fun _ _ => None)); [now rewrite Hf|].
    intros s' c'. reflexivity.
  - destruct s; [|simpl in Hm; lia].
    rewrite (Hb [] c _ (fun _ _ => None)); [now rewrite Hf|].
    intros s' c'. reflexivity.
  - rewrite (Hb s c _ (fun s' c' =>
               if Nat.ltb (length s') (length s)
               then greedy_rounds body k m s' c' else None)); [reflexivity|].
    intros s' c'. destruct (Nat.ltb (length s') (length s)) eqn:E; [|reflexivity].
    apply Nat.ltb_lt in E. apply IH; lia.
Qed.


Lemma greedy_rounds_unfold body (Hb : extensional body)
    (Hf : through_continuation body) k n s c :
  (length s <= n)%nat ->
  greedy_rounds body k n s c
  = match body s c
            (fun s' c' =>
               if Nat.ltb (length s') (length s)
               then greedy_rounds body k (length s') s' c' else None) with
    | Some x => Some x
    | None => k s c
    end.
Proof.
  intros Hn. destruct n as [|n]; cbn [greedy_rounds].
  - destruct s; [|simpl in Hn; lia].
    rewrite (Hb [] c
               (fun s' c' =>
                  if Nat.ltb (length s') (length (@nil N))
                  then greedy_rounds body k (length s') s' c' else None)
               (fun _ _ => None)); [now rewrite Hf|].
    intros s' c'. reflexivity.
  - rewrite (Hb s c
               (fun s' c' =>
                  if Nat.ltb (length s') (length s)
                  then greedy_rounds body k n s' c' else None)
               (fun s' c' =>
                  if Nat.ltb (length s') (length s)
                  then greedy_rounds body k (length s') s' c' else None));
      [reflexivity|].
    intros s' c'. destruct (Nat.ltb (length s') (length s)) eqn:E; [|reflexivity].
    apply Nat.ltb_lt in E. apply greedy_rounds_enough; auto; lia.
Qed.


(** The equations of RepeatMatcher: what [r*] and [r*?] do, with no bound
    in sight. *)
Theorem run_star n0 r s c k :
  run n0 (Star r) s c k
  = match run n0 r s c
            (fun s' c' =>
               if Nat.ltb (length s') (length s)
               then run n0 (Star r) s' c' k else None) with
    | Some x => Some x
    | None => k s c
    end.
Proof.
  cbn [run]. apply greedy_rounds_unfold; [apply run_ext|apply run_fail|lia].
Qed.


(** The matcher, construct by construct. *)
Lemma run_seq n0 r1 r2 s c k :
  run n0 (Seq r1 r2) s c k = run n0 r1 s c (fun s' c' => run n0 r2 s' c' k).
Proof. reflexivity. Qed.

Lemma run_class n0 p s c k :
  run n0 (Class p) s c k
  = match s with
    | x :: s' => if p x then k s' c else None
    | [] => None
    end.
Proof. reflexivity. Qed.


(** A star over a class takes one unit per round. *)
Lemma run_star_class n0 p s c k :
  run n0 (Star (Class p)) s c k
  = match s with
    | x :: s' =>
      if p x then
        match run n0 (Star (Class p)) s' c k with
        | Some r => Some r
        | None => k s c
        end
      else k s c
    | [] => k s c
    end.
Proof.
  rewrite run_star. destruct s as [|x s']; [reflexivity|].
  rewrite run_class. destruct (p x); [|reflexivity].
  replace (Nat.ltb (length s') (length (x :: s'))) with true; [reflexivity|].
  symmetry. apply Nat.ltb_lt. simpl. lia.
Qed.




End RegexFacts.

(** ** The normalizer *)

Module NormalizerFacts.
Import Regex RegexFacts Statements App.













(** *** Parenthesized parts *)












(** *** The normalizer as a whole *)


End NormalizerFacts.

Module NormalizerTheorems.
Import Regex MarkdownParser Statements App NormalizerFacts.


End NormalizerTheorems.

(** ** The resolver *)

Module ResolverFacts.
Import Geocoder GeocoderSpec.

Section WithHost.
Context {rt : Runtime} (net : network).


Lemma durable_lookup_hit name s text parsed :
  localStorage s !! cache_key name = Some text ->
  text <> [] ->
  JSON_parse text = Some parsed ->
  durable_lookup name (cache_key name) s
  = (Return (Some parsed),
     remember name parsed
       (log (MemorySet name parsed) (log (StorageGet (cache_key name)) s))).
Proof.
  intros Hs Ht Hp. step_monad.
  rewrite Hs. destruct text as [|c text]; [congruence|].
  cbn [JsString.truthy]. rewrite Hp. reflexivity.
Qed.

Lemma durable_lookup_miss name s :
  (forall text parsed,
      localStorage s !! cache_key name = Some text -> text <> [] ->
      JSON_parse text = Some parsed -> False) ->
  exists s0,
    durable_lookup name (cache_key name) (log (MemoryHas name) s) = (Return None, s0)
    /\ durable_miss name s s0.
Proof.
  intros Hno. step_monad. unfold log at 1 2. cbn [GEOCODE_CACHE localStorage trace].
  destruct (localStorage s !! cache_key name) as [text|] eqn:Hs.
  - destruct text as [|c text].
    + cbn [JsString.truthy]. eexists. split; [reflexivity|]. now apply miss_empty.
    + cbn [JsString.truthy]. destruct (JSON_parse (c :: text)) as [parsed|] eqn:Hp.
      * exfalso. eapply Hno; eauto; congruence.
      * eexists. split; [reflexivity|].
        apply (miss_malformed name s (c :: text)); [exact Hs|congruence|exact Hp].
  - eexists. split; [reflexivity|]. now apply miss_absent.
Qed.

Lemma durable_miss_requests name s s0 :
  durable_miss name s s0 -> requests s0 = requests s.
Proof.
  intros H. destruct H; unfold forget, requests; cbn [trace log];
    rewrite ?List.filter_app, ?length_app; cbn [List.filter is_fetch length]; lia.
Qed.

Lemma destructure_cases v s :
  destructure v s
  = if destructurable v
    then (Return (Value.get v (js "lat"), Value.get v (js "lon")), s)
    else (Throw TypeError, s).
Proof. destruct v; reflexivity. Qed.

Lemma provider_lookup_answer name url s0 :
  exists r s1,
    try_catch (provider_lookup net name (cache_key name) url)
      (fun _ => bind (emit ConsoleError) (fun _ => ret None)) s0
    = (r, s1)
    /\ provider_answer net name url s0
         (match r with
          | Return (Some v) => Return v
          | Return None => Return VNull
          | Throw e => Throw e
          end) s1.
Proof.
  step_monad.
  destruct (net (requests s0) url) as [|ok body] eqn:Hn.
  - do 2 eexists. split; [reflexivity|]. now apply answer_network_error.
  - destruct ok; cbn [negb].
    + destruct (JSON_parse body) as [data|] eqn:Hp.
      * destruct (has_matches data) eqn:Hm.
        -- rewrite destructure_cases.
           destruct (destructurable (Value.first data)) eqn:Hd.
           ++ do 2 eexists. split; [reflexivity|].
              apply (answer_match net name url s0 body data); auto.
           ++ do 2 eexists. split; [reflexivity|].
              eapply answer_type_error; eauto.
        -- do 2 eexists. split; [reflexivity|]. eapply answer_no_match; eauto.
      * do 2 eexists. split; [reflexivity|]. eapply answer_syntax_error; eauto.
    + do 2 eexists. split; [reflexivity|]. eapply answer_status; eauto.
Qed.

Lemma cache_has_eq name s :
  cache_has name s
  = (Return (bool_decide (is_Some (GEOCODE_CACHE s !! name))), log (MemoryHas name) s).
Proof. reflexivity. Qed.

Lemma cache_get_eq name s :
  cache_get name s
  = (Return (default VUndefined (GEOCODE_CACHE s !! name)), log (MemoryGet name) s).
Proof. reflexivity. Qed.

(** [geocodeCity] on a non-empty string, layer by layer. *)
Lemma geocodeCity_unfold name s :
  name <> [] ->
  geocodeCity net (QString name) s
  = match GEOCODE_CACHE s !! name with
    | Some v => (Return v, log (MemoryGet name) (log (MemoryHas name) s))
    | None =>
      match durable_lookup name (cache_key name) (log (MemoryHas name) s) with
      | (Return (Some parsed), s0) => (Return parsed, s0)
      | (Return None, s0) =>
        match encodeURIComponent name with
        | None => (Throw URIError, s0)
        | Some q =>
          match try_catch (provider_lookup net name (cache_key name) (search_url q))
                  handler s0 with
          | (Return (Some v), s1) => (Return v, s1)
          | (Return None, s1) => (Return VNull, s1)
          | (Throw e, s1) => (Throw e, s1)
          end
        end
      | (Throw e, s0) => (Throw e, s0)
      end
    end.
Proof.
  intros Hne. destruct name as [|c name']; [congruence|].
  set (name := c :: name') in *.
  unfold geocodeCity. change (JsString.truthy name) with true.
  cbv beta iota zeta delta [negb].
  unfold bind at 1. rewrite cache_has_eq.
  destruct (GEOCODE_CACHE s !! name) as [v|] eqn:Hc;
    cbn [bool_decide decide_rel is_Some_dec decide].
  - rewrite cache_get_eq.
    change (GEOCODE_CACHE (log (MemoryHas name) s)) with (GEOCODE_CACHE s).
    now rewrite Hc.
  - unfold bind at 1.
    destruct (durable_lookup name (cache_key name) (log (MemoryHas name) s))
      as [[[parsed|]|e] s0]; try reflexivity.
    destruct (encodeURIComponent name) as [q|]; [|reflexivity].
    unfold bind at 1. fold handler.
    destruct (try_catch (provider_lookup net name (cache_key name) (search_url q))
                handler s0) as [[[v|]|e] s1]; reflexivity.
Qed.

(** Every run of [geocodeCity] on a non-empty string is one of the runs
    of [resolves]. *)
Theorem geocodeCity_resolves name s r s1 :
  name <> [] ->
  geocodeCity net (QString name) s = (r, s1) ->
  resolves net name s r s1.
Proof.
  intros Hne. rewrite (geocodeCity_unfold name s Hne).
  destruct (GEOCODE_CACHE s !! name) as [v|] eqn:Hc.
  - intros [= <- <-]. now apply resolves_memory.
  - assert (Hmiss : forall s0,
               durable_lookup name (cache_key name) (log (MemoryHas name) s)
               = (Return None, s0) ->
               durable_miss name s s0 ->
               match durable_lookup name (cache_key name) (log (MemoryHas name) s) with
               | (Return (Some parsed), s0) => (Return parsed, s0)
               | (Return None, s0) =>
                 match encodeURIComponent name with
                 | None => (Throw URIError, s0)
                 | Some q =>
                   match try_catch
                           (provider_lookup net name (cache_key name) (search_url q))
                           handler s0 with
                   | (Return (Some v), s1) => (Return v, s1)
                   | (Return None, s1) => (Return VNull, s1)
                   | (Throw e, s1) => (Throw e, s1)
                   end
                 end
               | (Throw e, s0) => (Throw e, s0)
               end = (r, s1) ->
               resolves net name s r s1).
    { intros s0 E Hm. rewrite E.
      destruct (encodeURIComponent name) as [q|] eqn:Hq.
      - destruct (provider_lookup_answer name (search_url q) s0)
          as [r' [s1' [E1 H1]]].
        fold handler in E1. rewrite E1.
        destruct r' as [[v|]|e]; intros [= <- <-]; eapply resolves_provider; eauto.
      - intros [= <- <-]. eapply resolves_uri_error; eauto. }
    destruct (localStorage s !! cache_key name) as [text|] eqn:Hs.
    + assert (Hdec : text = [] \/ text <> [])
        by (destruct text; [now left|right; discriminate]).
      destruct Hdec as [->|Ht].
      * destruct (durable_lookup_miss name s) as [s0 [E Hm]].
        { intros text parsed H. rewrite Hs in H. injection H as <-. congruence. }
        now apply (Hmiss s0).
      * destruct (JSON_parse text) as [parsed|] eqn:Hp.
        -- rewrite (durable_lookup_hit name (log (MemoryHas name) s) text parsed Hs Ht Hp).
           intros [= <- <-]. eapply resolves_durable; eauto.
        -- destruct (durable_lookup_miss name s) as [s0 [E Hm]].
           { intros text' parsed H. rewrite Hs in H. injection H as <-. congruence. }
           now apply (Hmiss s0).
    + destruct (durable_lookup_miss name s) as [s0 [E Hm]].
      { intros text parsed H. rewrite Hs in H. discriminate. }
      now apply (Hmiss s0).
Qed.

Lemma resolves_requests name s r s1 :
  resolves net name s r s1 -> (requests s <= requests s1 <= requests s + 1)%nat.
Proof. intros H. invert_run H; count_requests. Qed.

Lemma geocodeCity_falsy q s :
  match q with QString (_ :: _) => False | _ => True end ->
  geocodeCity net q s = (Return VNull, s).
Proof. destruct q as [| |[|c name]]; intros []; reflexivity. Qed.

Lemma geocodeCity_requests q s r s1 :
  geocodeCity net q s = (r, s1) -> (requests s <= requests s1 <= requests s + 1)%nat.
Proof.
  destruct q as [| |[|c name]];
    try (rewrite geocodeCity_falsy by exact I; intros [= <- <-]; lia).
  intros H. apply geocodeCity_resolves in H; [|discriminate].
  now apply resolves_requests in H.
Qed.



End WithHost.
End ResolverFacts.
Module ResolverTheorems.
Import Geocoder GeocoderSpec ResolverFacts Statements.

Section WithHost.
Context {rt : Runtime} (net : network).

(** The events of a run are added at the end of the trace. *)
Lemma new_events_app s evs (s1 : state) :
  trace s1 = trace s ++ evs -> new_events s s1 = evs.
Proof.
  intros H. unfold new_events. rewrite H, skipn_app, Nat.sub_diag.
  rewrite skipn_all. reflexivity.
Qed.

Lemma new_events_log3 s e1 e2 e3 :
  new_events s (log e3 (log e2 (log e1 s))) = [e1; e2; e3].
Proof. apply new_events_app. unfold log. cbn [trace]. now rewrite <- !app_assoc. Qed.




End WithHost.

(** C10. For the empty string, [null] and [undefined] the resolver returns
    [null] and leaves the state as it was: no cache layer is read or
    written and no request is made (the trace of events is unchanged). *)
Theorem falsy_query_returns_null {rt : Runtime} (net : network) (s : state) :
  geocodeCity net (QString []) s = (Return VNull, s)
  /\ geocodeCity net QNull s = (Return VNull, s)
  /\ geocodeCity net QUndefined s = (Return VNull, s).
Proof. repeat split. Qed.





(** C7. A call whose request fails (the request itself, a status that is
    not a success, a body that is not JSON, or an empty array of matches)
    returns [null] to the caller, with nothing written to either cache: an
    empty array writes no entry.  A durable entry that does not parse is
    removed from the store ([removeItem]), the error goes no further (the
    one exception [geocodeCity] can throw is the [URIError] of
    [encodeURIComponent] on a string with a lone surrogate), and the call
    goes on to the provider as on a miss; afterwards the store has no entry
    for the query, or the fresh one the provider gave. *)
Theorem failures_return_null {rt : Runtime} (net : network)
    (name : jsstring) (s : state) (r : completion value) (s1 : state) :
  geocodeCity net (QString name) s = (r, s1) ->
  (forall url,
      In (Fetch url) (new_events s s1) ->
      failure (net (requests s) url) ->
      r = Return VNull
      /\ GEOCODE_CACHE s1 = GEOCODE_CACHE s
      /\ forallb (fun e => negb (is_write e)) (new_events s s1) = true)
  /\ (forall text,
        name <> [] ->
        GEOCODE_CACHE s !! name = None ->
        localStorage s !! cache_key name = Some text ->
        text <> [] ->
        JSON_parse text = None ->
        In (StorageRemove (cache_key name)) (new_events s s1)
        /\ (forall e, r = Throw e -> e = URIError /\ encodeURIComponent name = None)
        /\ (forall q, encodeURIComponent name = Some q ->
                      In (Fetch (search_url q)) (new_events s s1))
        /\ (localStorage s1 !! cache_key name = None
            \/ exists fresh,
                r = Return fresh
                /\ localStorage s1 !! cache_key name = Some (JSON_stringify fresh))).
Proof.
  intros H.
  assert (Hempty : name = [] -> s1 = s).
  { intros ->. rewrite geocodeCity_falsy in H by exact I. congruence. }
  split.
  - intros url Hin Hfail.
    destruct name as [|c name'].
    { rewrite (Hempty eq_refl) in Hin. unfold new_events in Hin.
      rewrite skipn_all in Hin. destruct Hin. }
    apply geocodeCity_resolves in H; [|discriminate].
    invert_run H; revert Hin; events; cbn [In]; intros Hin;
      repeat match goal with
             | H : _ \/ _ |- _ => destruct H
             | H : False |- _ => destruct H
             | H : Fetch _ = Fetch _ |- _ => injection H as <-
             | H : _ = Fetch _ |- _ => discriminate H
             end;
      try (repeat split; reflexivity).
    all: exfalso; unfold failure in Hfail.
    all: repeat match goal with
                | H : _ (requests ?s0) _ = _ |- _ =>
                  progress (replace (requests s0) with (requests s) in H by count_requests)
                end.
    all: destruct Hfail as [Hf|[[b Hf]|[[b [Hf Hp]]|[b [Hf Hp]]]]]; try congruence.
    all: match goal with
         | Hn : _ = Response true ?body |- _ =>
           rewrite Hf in Hn; injection Hn as <-
         end.
    all: match goal with
         | Hj : JSON_parse _ = Some ?data, Hm : has_matches ?data = true |- _ =>
           rewrite Hp in Hj; injection Hj as <-; discriminate Hm
         end.
  - intros text Hne Hc Hs Ht Hp.
    apply geocodeCity_resolves in H; [|exact Hne].
    invert_run H; try congruence.
    all: repeat match goal with
                | Ha : localStorage _ !! cache_key _ = _ |- _ =>
                  rewrite Hs in Ha;
                  first [discriminate Ha | injection Ha as <- | injection Ha as ->]
                end; try congruence.
    all: events; cbn [In localStorage log remember store forget].
    all: repeat split;
      try (intros e He; first [discriminate He | injection He as <-]; now split);
      try (intros q' Hq'; congruence);
      try (intros q' Hq';
           match goal with
           | Hq : encodeURIComponent _ = Some _ |- _ =>
             rewrite Hq in Hq'; injection Hq' as <-
           end; auto 10);
      auto 10;
      try (left; apply lookup_delete_eq);
      try (right; eexists; split; [reflexivity|apply lookup_insert_eq]);
      try congruence.
Qed.


Lemma failures_return_null_witness :
  let run := geocodeCity (rt := Engine.runtime) Samples.no_match_network
               (QString (js "西安")) Samples.malformed_state in
  let url := search_url (js "%E8%A5%BF%E5%AE%89") in
  run = (fst run, snd run)
  /\ In (Fetch url) (new_events Samples.malformed_state (snd run))
  /\ failure (rt := Engine.runtime)
       (Samples.no_match_network (requests Samples.malformed_state) url)
  /\ (fst run = Return VNull
      /\ GEOCODE_CACHE (snd run) = GEOCODE_CACHE Samples.malformed_state
      /\ forallb (fun e => negb (is_write e))
           (new_events Samples.malformed_state (snd run)) = true)
  /\ In (StorageRemove (cache_key (js "西安")))
       (new_events Samples.malformed_state (snd run)).
Proof.
  intros run url.
  assert (E : run = (fst run, snd run)) by apply surjective_pairing.
  assert (Hin : In (Fetch url) (new_events Samples.malformed_state (snd run))).
  { vm_compute. tauto. }
  assert (Hfail : failure (rt := Engine.runtime)
                    (Samples.no_match_network (requests Samples.malformed_state) url)).
  { right. right. right. exists (js "[]"). split; [reflexivity|].
    vm_compute. reflexivity. }
  destruct (failures_return_null (rt := Engine.runtime) Samples.no_match_network
              (js "西安") Samples.malformed_state (fst run) (snd run) E)
    as [Hfailures Hmalformed].
  split; [exact E|]. split; [exact Hin|]. split; [exact Hfail|].
  split; [exact (Hfailures url Hin Hfail)|].
  apply (Hmalformed (js "{oops")).
  - vm_compute. discriminate.
  - vm_compute. reflexivity.
  - vm_compute. reflexivity.
  - vm_compute. discriminate.
  - vm_compute. reflexivity.
Defined.




End ResolverTheorems.

(** ** The geocoding loop *)

Module LoopFacts.
Import Geocoder GeocoderSpec Statements App.

Section WithHost.
Context {rt : Runtime} (net : network).

(** One round of the loop, by what the resolver returned. *)
Lemma geocode_location_unfold acc loc s :
  geocode_location net acc loc s
  = match geocodeCity net (QString (geoName loc)) s with
    | (Return coords, s1) =>
      if Value.truthy coords then (Return (acc ++ [merge loc coords]), s1)
      else if negb (JsString.eqb (geoName loc) (Location.name loc)) then
        match geocodeCity net (QString (Location.name loc)) s1 with
        | (Return coords2, s2) =>
          (Return (if Value.truthy coords2 then acc ++ [merge loc coords2] else acc), s2)
        | (Throw e, s2) => (Throw e, s2)
        end
      else (Return acc, s1)
    | (Throw e, s1) => (Throw e, s1)
    end.
Proof.
  unfold geocode_location. cbv zeta. unfold bind at 1.
  destruct (geocodeCity net (QString (geoName loc)) s) as [[coords|e] s1];
    [|reflexivity].
  destruct (Value.truthy coords); [reflexivity|].
  destruct (negb (JsString.eqb (geoName loc) (Location.name loc))); [|reflexivity].
  unfold bind at 1.
  destruct (geocodeCity net (QString (Location.name loc)) s1) as [[coords2|e] s2];
    [|reflexivity].
  now destruct (Value.truthy coords2).
Qed.

(** A round adds nothing, or the record with a coordinate the resolver
    returned for it. *)
Lemma geocode_location_adds acc loc s acc' s' :
  geocode_location net acc loc s = (Return acc', s') ->
  acc' = acc
  \/ exists q s0 coords s1,
       geocodeCity net (QString q) s0 = (Return coords, s1)
       /\ Value.truthy coords = true
       /\ acc' = acc ++ [merge loc coords].
Proof.
  rewrite geocode_location_unfold.
  destruct (geocodeCity net (QString (geoName loc)) s) as [[coords|e] s1] eqn:E1;
    [|discriminate].
  destruct (Value.truthy coords) eqn:T1.
  - intros [= <- <-]. right. eauto 8.
  - destruct (negb (JsString.eqb (geoName loc) (Location.name loc))).
    + destruct (geocodeCity net (QString (Location.name loc)) s1)
        as [[coords2|e] s2] eqn:E2; [|discriminate].
      destruct (Value.truthy coords2) eqn:T2; intros [= <- <-]; [|now left].
      right. eauto 8.
    + intros [= <- <-]. now left.
Qed.

(** The result of the loop: the records kept, in the order of the input,
    each with the coordinate it was given. *)
Lemma geocode_locations_kept locations : forall acc s out s',
  geocode_locations net locations acc s = (Return out, s') ->
  exists ks : list kept,
    out = acc ++ map resolved ks
    /\ sublist (map fst ks) locations
    /\ Forall (fun k => Value.truthy (snd k) = true) ks.
Proof.
  induction locations as [|loc rest IH]; intros acc s out s'.
  - intros [= <- <-]. exists []. rewrite app_nil_r. repeat constructor.
  - cbn [geocode_locations]. unfold bind at 1.
    destruct (geocode_location net acc loc s) as [[acc'|e] s1] eqn:E; [|discriminate].
    intros H. apply IH in H as [ks [-> [Hsub Hall]]].
    apply geocode_location_adds in E as [->|[q [s0 [coords [s2 [_ [Ht ->]]]]]]].
    + exists ks. split; [reflexivity|]. split; [now apply sublist_cons|exact Hall].
    + exists ((loc, coords) :: ks). split.
      * rewrite <- app_assoc. reflexivity.
      * split; [now apply sublist_skip|]. constructor; [exact Ht|exact Hall].
Qed.

End WithHost.


End LoopFacts.

Module LoopTheorems.
Import Geocoder GeocoderSpec Statements App ResolverFacts ResolverTheorems LoopFacts.




(** X15. The policy of the loop, for calls of the resolver that return.  The
    loop takes the records in order.  For each one the query of the
    normalizer is resolved; a coordinate that comes back is merged into the
    record, which is kept; when none comes back the name of the record is
    tried, but only if it differs from the query; a record without a
    coordinate after that is left out, and the loop goes on with the next
    record.  The result holds the kept records in the order of the input.
    A biography with two locations of which the provider knows one gives a
    result of exactly that one. *)
Theorem loop_keeps_retries_drops {rt : Runtime} (net : network) :
  (forall acc loc s coords s1,
      geocodeCity net (QString (geoName loc)) s = (Return coords, s1) ->
      (Value.truthy coords = true ->
       geocode_location net acc loc s = (Return (acc ++ [merge loc coords]), s1))
      /\ (Value.truthy coords = false ->
          geoName loc = Location.name loc ->
          geocode_location net acc loc s = (Return acc, s1))
      /\ (Value.truthy coords = false ->
          geoName loc <> Location.name loc ->
          forall coords2 s2,
            geocodeCity net (QString (Location.name loc)) s1 = (Return coords2, s2) ->
            geocode_location net acc loc s
            = (Return (if Value.truthy coords2
                       then acc ++ [merge loc coords2] else acc), s2)))
  /\ (forall acc loc rest s acc' s1,
        geocode_location net acc loc s = (Return acc', s1) ->
        geocode_locations net (loc :: rest) acc s = geocode_locations net rest acc' s1)
  /\ (forall locations s out s',
        geocode_locations net locations [] s = (Return out, s') ->
        exists ks : list kept,
          out = map resolved ks
          /\ sublist (map fst ks) locations
          /\ Forall (fun k => Value.truthy (snd k) = true) ks)
  /\ (let locations :=
        MarkdownParser.locations (MarkdownParser.parseMarkdown Samples.two_locations) in
      length locations = 2%nat
      /\ fst (handleGenerate_from (rt := Engine.runtime) Samples.xian_network
                Samples.two_locations Samples.empty_state)
         = Map (map (fun loc => merge loc Samples.xian_coordinate) (firstn 1 locations))).
Proof.
  split; [|split; [|split]].
  - intros acc loc s coords s1 H. rewrite geocode_location_unfold, H.
    split; [|split].
    + now intros ->.
    + intros -> ->. now rewrite eqb_refl.
    + intros -> Hne coords2 s2 H2.
      destruct (JsString.eqb (geoName loc) (Location.name loc)) eqn:E.
      * apply eqb_spec in E. contradiction.
      * cbn [negb]. now rewrite H2.
  - intros acc loc rest s acc' s1 H. cbn [geocode_locations]. unfold bind.
    now rewrite H.
  - intros locations s out s' H.
    apply geocode_locations_kept in H as [ks [-> H]]. now exists ks.
  - vm_compute. split; reflexivity.
Qed.

(** C1, at the input where the code departs from it.  The headers carry the
    emoji the header pattern allows for.  The class [[🟢🔴📍]] of that
    pattern has no [u] flag and takes the first half of the emoji only, so
    the names start with the second half, a lone surrogate.  The first
    record resolves through its description and is kept.  The query of the
    second finds nothing; the retry with its name throws the [URIError] of
    [encodeURIComponent], which [geocodeCity] calls before its [try]; the
    loop has no handler, and the run ends in the [catch] of
    [handleGenerate] with no map at all.  The same text without the emoji
    gives the map with the one record. *)
Theorem emoji_header_aborts_run :
  map Location.name
    (MarkdownParser.locations
       (MarkdownParser.parseMarkdown Samples.two_locations_with_emoji))
  = [0xDFE2 :: js " 长安"; 0xDCCD :: js " 桃花源"]
  /\ fst (handleGenerate_from (rt := Engine.runtime) Samples.xian_network
            Samples.two_locations_with_emoji Samples.empty_state)
     = Failed URIError
  /\ fst (handleGenerate_from (rt := Engine.runtime) Samples.xian_network
            Samples.two_locations Samples.empty_state)
     = Map (map (fun loc => merge loc Samples.xian_coordinate)
              (firstn 1 (MarkdownParser.locations
                           (MarkdownParser.parseMarkdown Samples.two_locations)))).
Proof. vm_compute. repeat split. Qed.

End LoopTheorems.

(** ** More of the extractor *)

Module SectionFacts.
Import Regex MarkdownParser Statements ParserFacts.

(** What the loop of [extractSection] adds to [content]: lines of the
    text, in their order, none of them a second-level header. *)
Lemma extractSection_loop_kept (hp : Regex.t) (lines : list jsstring) :
  forall inSection content,
    exists kept,
      extractSection_loop hp lines inSection content = content ++ kept
      /\ sublist kept lines
      /\ Forall (fun line => test h2_regex line = false) kept.
Proof.
  induction lines as [|line rest IH]; intros inSection content; simpl.
  - exists []. rewrite app_nil_r. repeat constructor.
  - destruct (test h2_regex line) eqn:H2.
    + destruct (test hp line).
      * destruct (IH true content) as [kept [E [Hs Hf]]].
        exists kept. split; [exact E|]. split; [now apply sublist_cons|exact Hf].
      * destruct inSection.
        -- exists []. rewrite app_nil_r. split; [reflexivity|].
           split; [apply sublist_nil_l|constructor].
        -- destruct (IH false content) as [kept [E [Hs Hf]]].
           exists kept. split; [exact E|]. split; [now apply sublist_cons|exact Hf].
    + destruct inSection.
      * destruct (IH true (content ++ [line])) as [kept [E [Hs Hf]]].
        exists (line :: kept). rewrite E, <- app_assoc. split; [reflexivity|].
        split; [now apply sublist_skip|now constructor].
      * destruct (IH false content) as [kept [E [Hs Hf]]].
        exists kept. split; [exact E|]. split; [now apply sublist_cons|exact Hf].
Qed.

Lemma sublist_Forall {A} (P : A -> Prop) (l k : list A) :
  sublist l k -> Forall P k -> Forall P l.
Proof.
  induction 1 as [|x l k _ IH|x l k _ IH]; intros HF; [constructor| |].
  - inversion HF; subst. constructor; auto.
  - inversion HF; subst. auto.
Qed.

(** The section as lines: what the loop kept, or one empty line when it
    kept nothing. *)
Lemma extractSection_as_lines (text : jsstring) (hp : Regex.t) :
  exists kept,
    sublist kept (lines_of text)
    /\ Forall (fun line => test h2_regex line = false) kept
    /\ extractSection text hp = unlines kept
    /\ (kept <> [] -> lines_of (extractSection text hp) = kept).
Proof.
  destruct (extractSection_loop_kept hp (lines_of text) false []) as [kept [E [Hs Hf]]].
  simpl in E. exists kept. split; [exact Hs|]. split; [exact Hf|].
  unfold extractSection. rewrite E. split; [reflexivity|].
  intros Hne. apply lines_of_unlines; [exact Hne|].
  eapply sublist_Forall; [exact Hs|apply lines_of_LF_free].
Qed.

(** Once the section is open, the header of another section ends the
    loop. *)
Lemma extractSection_loop_break (hp : Regex.t) (stop : jsstring)
    (rest : list jsstring) :
  test h2_regex stop = true -> test hp stop = false ->
  forall before inSection content,
    inSection = true
    \/ Exists (fun line => test h2_regex line && test hp line = true) before ->
    extractSection_loop hp (before ++ stop :: rest) inSection content
    = extractSection_loop hp before inSection content.
Proof.
  intros H2 Hp. induction before as [|line before IH]; intros inSection content Hin.
  - destruct Hin as [->|Hex]; [|inversion Hex].
    simpl. now rewrite H2, Hp.
  - cbn [app extractSection_loop].
    destruct (test h2_regex line) eqn:L2.
    + destruct (test hp line) eqn:Lp.
      * apply IH. now left.
      * destruct inSection; [reflexivity|].
        apply IH. destruct Hin as [Hin|Hex]; [discriminate|].
        inversion Hex as [? ? Hh|? ? Ht]; subst; [|now right].
        rewrite L2, Lp in Hh. discriminate.
    + destruct inSection.
      * apply IH. now left.
      * apply IH. destruct Hin as [Hin|Hex]; [discriminate|].
        inversion Hex as [? ? Hh|? ? Ht]; subst; [|now right].
        rewrite L2 in Hh. discriminate.
Qed.

End SectionFacts.

Module SectionTheorems.
Import Regex MarkdownParser Statements ParserFacts SectionFacts.

(** X1. The section [extractSection] returns is made of lines of the
    text, in the order of the text, and none of its lines is a
    second-level header. *)
Theorem section_holds_body_lines (text : jsstring) (hp : Regex.t) :
  Forall (fun line => test h2_regex line = false) (lines_of (extractSection text hp))
  /\ (extractSection text hp <> [] ->
      sublist (lines_of (extractSection text hp)) (lines_of text)).
Proof.
  destruct (extractSection_as_lines text hp) as [kept [Hs [Hf [E Hl]]]].
  destruct kept as [|l kept'].
  - rewrite E. split; [|intros H; now contradiction H].
    constructor; [vm_compute; reflexivity|constructor].
  - rewrite Hl by discriminate. split; [exact Hf|intros _; exact Hs].
Qed.

(** X2. A section ends at the first second-level header that follows its
    own header and does not match its pattern: two texts that agree up to
    and including that header have the same section, whatever follows. *)
Theorem section_ends_at_next_header (hp : Regex.t) (text text' : jsstring)
    (before rest rest' : list jsstring) (stop : jsstring) :
  lines_of text = before ++ stop :: rest ->
  lines_of text' = before ++ stop :: rest' ->
  Exists (fun line => test h2_regex line && test hp line = true) before ->
  test h2_regex stop = true ->
  test hp stop = false ->
  extractSection text hp = extractSection text' hp.
Proof.
  intros E E' Hopen H2 Hp. unfold extractSection. rewrite E, E'.
  rewrite !(extractSection_loop_break hp stop _ H2 Hp) by now right.
  reflexivity.
Qed.

Lemma section_ends_at_next_header_witness :
  extractSection MoreSamples.closed_section location_header
  = extractSection MoreSamples.closed_section_other_end location_header.
Proof.
  apply (section_ends_at_next_header location_header
           MoreSamples.closed_section MoreSamples.closed_section_other_end
           [js "## 人生历程"; js "### 重要地点：长安"]
           [js "### 重要地点：洛阳"] [js "- **位置**：洛阳"] (js "## 历史影响")).
  - vm_compute. reflexivity.
  - vm_compute. reflexivity.
  - apply Exists_cons_hd. vm_compute. reflexivity.
  - vm_compute. reflexivity.
  - vm_compute. reflexivity.
Defined.

End SectionTheorems.

Module ProfileFacts.
Import Regex MarkdownParser Statements Coverage ParserFacts SectionFacts.

Lemma last_line_with_snoc mark lines line :
  last_line_with mark (lines ++ [line])
  = if JsString.includes line mark then Some line else last_line_with mark lines.
Proof. unfold last_line_with. rewrite rev_app_distr. reflexivity. Qed.

(** The person after a line: each field is assigned when the line includes
    its mark, and kept otherwise. *)
Lemma profile_step_person st line :
  Forall (fun '(mark, pat, get) =>
            get (person_so_far (profile_step st line))
            = if JsString.includes line mark then field_of_line line pat
              else get (person_so_far st))
    profile_fields.
Proof.
  unfold profile_fields, profile_step, assign_if, field_of_line.
  repeat (apply List.Forall_cons; [|]); [..|apply List.Forall_nil]; cbv beta iota;
    destruct (JsString.includes line (js "**姓名**"));
    destruct (JsString.includes line (js "**时代**"));
    destruct (JsString.includes line (js "**出生**"));
    destruct (JsString.includes line (js "**去世**"));
    destruct (JsString.includes line (js "**享年**"));
    destruct (JsString.includes line (js "**主要身份**"));
    destruct (test overview_regex line);
    try reflexivity;
    destruct (JsString.eqb (currentKey st) (js "overview")
              && JsString.truthy (JsString.trim line)
              && negb (JsString.startsWith line (js "#")));
    reflexivity.
Qed.

Lemma profile_fold_person lines : forall st,
  Forall (fun '(mark, pat, get) =>
            get (person_so_far (fold_left profile_step lines st))
            = match last_line_with mark lines with
              | Some line => field_of_line line pat
              | None => get (person_so_far st)
              end)
    profile_fields.
Proof.
  induction lines as [|line lines IH] using rev_ind; intros st.
  - unfold profile_fields.
    repeat (apply List.Forall_cons; [reflexivity|]). apply List.Forall_nil.
  - rewrite fold_left_app. cbn [fold_left].
    pose proof (profile_step_person (fold_left profile_step lines st) line) as Hstep.
    specialize (IH st).
    rewrite List.Forall_forall in *. intros [[mark pat] get] Hin.
    specialize (Hstep _ Hin). specialize (IH _ Hin). cbn beta iota in *.
    rewrite last_line_with_snoc, Hstep.
    destruct (JsString.includes line mark); [reflexivity|exact IH].
Qed.

(** The introduction after a line. *)
Lemma profile_step_intro st line :
  intro_so_far (profile_step st line)
  = (if negb (test overview_regex line)
        && JsString.eqb (currentKey st) (js "overview") && overview_text line
     then intro_so_far st ++ JsString.trim line ++ js " "
     else intro_so_far st)
  /\ currentKey (profile_step st line)
     = (if test overview_regex line then js "overview" else currentKey st).
Proof.
  unfold profile_step, overview_text.
  destruct (test overview_regex line); [split; reflexivity|].
  destruct (JsString.eqb (currentKey st) (js "overview"));
    destruct (JsString.truthy (JsString.trim line));
    destruct (negb (JsString.startsWith line (js "#"))); split; reflexivity.
Qed.

Lemma profile_fold_intro lines : forall st,
  exists ls,
    sublist ls lines
    /\ Forall (fun line => overview_text line = true) ls
    /\ intro_so_far (fold_left profile_step lines st)
       = intro_so_far st ++ concat (map (fun line => JsString.trim line ++ js " ") ls)
    /\ (JsString.eqb (currentKey st) (js "overview") = false ->
        Forall (fun line => test overview_regex line = false) lines ->
        ls = []).
Proof.
  induction lines as [|line lines IH]; intros st.
  - exists []. cbn. rewrite app_nil_r. repeat constructor.
  - cbn [fold_left]. destruct (IH (profile_step st line)) as [ls [Hs [Hf [E Hno]]]].
    destruct (profile_step_intro st line) as [Ei Ek].
    destruct (negb (test overview_regex line)
              && JsString.eqb (currentKey st) (js "overview") && overview_text line)
      eqn:C.
    + exists (line :: ls). split; [now apply sublist_skip|].
      apply andb_true_iff in C as [C C3]. apply andb_true_iff in C as [C1 C2].
      split; [now constructor|]. split.
      * rewrite E, Ei. cbn [map concat]. now rewrite <- !app_assoc.
      * intros Hk. rewrite Hk in C2. discriminate.
    + exists ls. split; [now apply sublist_cons|]. split; [exact Hf|]. split.
      * now rewrite E, Ei.
      * intros Hk Hall. inversion Hall as [|? ? Hl Hrest]; subst.
        apply Hno; [|exact Hrest]. now rewrite Ek, Hl.
Qed.

(** A person without a field, as the empty line decides it. *)
Lemma profile_without_lines :
  Forall (fun '(mark, pat, get) =>
            get Person.empty
            = match last_line_with mark [[]] with
              | Some line => field_of_line line pat
              | None => Absent
              end)
    profile_fields.
Proof.
  unfold profile_fields, last_line_with. cbn [rev app List.find].
  repeat (apply List.Forall_cons;
          [match goal with
           | |- context [JsString.includes [] ?m] =>
             replace (JsString.includes [] m) with false by (vm_compute; reflexivity)
           end; reflexivity|]).
  apply List.Forall_nil.
Qed.

Lemma profile_fields_empty :
  Forall (fun '(mark, pat, get) => get Person.empty = Absent) profile_fields.
Proof.
  unfold profile_fields.
  repeat (apply List.Forall_cons; [reflexivity|]). apply List.Forall_nil.
Qed.

Lemma lines_of_nil : lines_of [] = [[]].
Proof. reflexivity. Qed.

Lemma extractSection_nil hp : extractSection [] hp = [].
Proof.
  unfold extractSection. rewrite lines_of_nil. cbn [extractSection_loop].
  replace (test h2_regex []) with false by (vm_compute; reflexivity). reflexivity.
Qed.

End ProfileFacts.

Module ProfileTheorems.
Import Regex MarkdownParser Statements Coverage ParserFacts SectionFacts ProfileFacts.

(** X3. Each of the six fields of the person is decided by the last line
    of the profile section that includes its mark: the field is what
    [extractField] reads from that line, [null] when the line does not have
    the form of a field, and it is absent when no line includes the
    mark. *)
Theorem profile_field_from_last_line (markdown : jsstring) :
  Forall (fun '(mark, pat, get) =>
            get (person (parseMarkdown markdown))
            = match last_line_with mark (profile_lines markdown) with
              | Some line => field_of_line line pat
              | None => Absent
              end)
    profile_fields.
Proof.
  unfold parseMarkdown, profile_lines.
  destruct markdown as [|c markdown'].
  - cbn [JsString.truthy negb person empty_result].
    rewrite extractSection_nil, lines_of_nil. exact profile_without_lines.
  - set (markdown := c :: markdown'). change (JsString.truthy markdown) with true.
    cbn [negb person]. unfold parse_profile. cbv zeta.
    destruct (extractSection markdown profile_header) as [|d section'] eqn:E.
    + cbn [JsString.truthy person_so_far]. rewrite lines_of_nil.
      exact profile_without_lines.
    + set (section := d :: section'). change (JsString.truthy section) with true.
      cbv iota.
      pose proof (profile_fold_person (lines_of section)
                    {| person_so_far := Person.empty; currentKey := [];
                       intro_so_far := [] |}) as Hfold.
      pose proof profile_fields_empty as Hempty.
      rewrite List.Forall_forall in *. intros [[mark pat] get] Hin.
      specialize (Hfold _ Hin). specialize (Hempty _ Hin). cbn beta iota in *.
      rewrite Hfold.
      destruct (last_line_with mark (lines_of section)); [reflexivity|exact Hempty].
Qed.

(** X4. The introduction is made of lines of the profile section, in
    their order: each one trimmed and followed by one space, none of them
    blank or starting with [#].  Without a line [### 生平概述] in the
    section the introduction is empty. *)
Theorem intro_from_overview_lines (markdown : jsstring) :
  exists ls,
    sublist ls (profile_lines markdown)
    /\ Forall (fun line => overview_text line = true) ls
    /\ intro (parseMarkdown markdown)
       = concat (map (fun line => JsString.trim line ++ js " ") ls)
    /\ (Forall (fun line => test overview_regex line = false) (profile_lines markdown) ->
        intro (parseMarkdown markdown) = []).
Proof.
  unfold parseMarkdown, profile_lines.
  destruct markdown as [|c markdown'].
  - exists []. cbn [JsString.truthy negb intro empty_result map concat].
    split; [apply sublist_nil_l|]. repeat constructor.
  - set (markdown := c :: markdown'). change (JsString.truthy markdown) with true.
    cbn [negb intro]. unfold parse_profile. cbv zeta.
    destruct (extractSection markdown profile_header) as [|d section'] eqn:E.
    + exists []. cbn [JsString.truthy intro_so_far map concat].
      split; [apply sublist_nil_l|]. repeat constructor.
    + set (section := d :: section'). change (JsString.truthy section) with true.
      cbv iota.
      destruct (profile_fold_intro (lines_of section)
                  {| person_so_far := Person.empty; currentKey := [];
                     intro_so_far := [] |}) as [ls [Hs [Hf [Ei Hno]]]].
      exists ls. split; [exact Hs|]. split; [exact Hf|]. split; [exact Ei|].
      intros Hall. rewrite Ei, Hno; [reflexivity| |exact Hall].
      vm_compute. reflexivity.
Qed.

End ProfileTheorems.

Module RecordFacts.
Import Regex MarkdownParser Statements Coverage ParserFacts.

(** The pieces [filter(Boolean)] keeps of trimmed strings. *)
Lemma filled_pieces (pieces : list jsstring) :
  Forall filled (List.filter JsString.truthy (map JsString.trim pieces)).
Proof.
  induction pieces as [|p pieces IH]; cbn [map List.filter]; [constructor|].
  destruct (JsString.truthy (JsString.trim p)) eqn:T; [|exact IH].
  constructor; [|exact IH]. split; [apply trim_trim|].
  intros E. rewrite E in T. discriminate.
Qed.

Lemma update_if_clean {A} line pat (g : jsstring -> A) set l :
  (forall v, JsString.trim v = v -> clean_record l -> clean_record (set (g v) l)) ->
  clean_record l -> clean_record (update_if line pat g set l).
Proof.
  intros Hset Hl. unfold update_if.
  destruct (extractField line pat) as [v|] eqn:E; [|exact Hl].
  destruct (JsString.truthy v); [|exact Hl].
  apply Hset; [|exact Hl]. now apply extractField_trimmed in E.
Qed.

Lemma location_fields_clean line l :
  clean_record l -> clean_record (location_fields line l).
Proof.
  intros Hl. unfold location_fields.
  repeat (apply update_if_clean;
          [intros v Hv [H1 [H2 [H3 H4]]]; unfold clean_record, id;
           cbn [Location.time Location.desc Location.significance Location.quotes
                Location.set_time Location.set_desc Location.set_significance
                Location.set_quotes Location.set_locationDesc];
           repeat split; try assumption; apply filled_pieces|]).
  exact Hl.
Qed.

Lemma open_location_clean h : clean_record (open_location h).
Proof.
  unfold open_location, clean_record.
  destruct (JsString.includes (JsString.trim h) (js "出生地"));
    [cbn; repeat split; constructor|].
  destruct (JsString.includes (JsString.trim h) (js "去世地"));
    [cbn; repeat split; constructor|].
  destruct (JsString.includes (JsString.trim h) (js "重要地点"));
    cbn; repeat split; constructor.
Qed.

(** *** The timeline *)

Lemma timeline_step_cases st line :
  timeline_step st line
  = if is_header_row line
    then {| timeline_so_far := timeline_so_far st; tableStarted := true |}
    else if tableStarted st && is_row line
    then match cells line with
         | year :: age :: event :: _ =>
           {| timeline_so_far := timeline_so_far st ++
                [{| TimelineEntry.year := year; TimelineEntry.age := age;
                    TimelineEntry.event := event |}];
              tableStarted := tableStarted st |}
         | _ => st
         end
    else st.
Proof.
  unfold timeline_step, is_header_row, is_row, cells.
  destruct (JsString.startsWith (JsString.trim line) (js "|"));
    destruct (JsString.includes line (js "年份"));
    destruct (tableStarted st);
    destruct (JsString.includes line (js "---")); reflexivity.
Qed.

(** Where an entry of the timeline comes from: a row of the table that
    follows a header row. *)
Lemma timeline_fold_origin (lines : list jsstring) :
  forall st e,
    In e (timeline_so_far (fold_left timeline_step lines st)) ->
    In e (timeline_so_far st)
    \/ exists before line after rest,
         lines = before ++ line :: after
         /\ (tableStarted st = true
             \/ Exists (fun l => is_header_row l = true) before)
         /\ is_row line = true
         /\ cells line
            = TimelineEntry.year e :: TimelineEntry.age e :: TimelineEntry.event e :: rest.
Proof.
  induction lines as [|l lines IH]; intros st e He; [now left|].
  cbn [fold_left] in He. apply IH in He. clear IH.
  assert (Hlater : forall st',
            (tableStarted st' = true ->
             tableStarted st = true \/ is_header_row l = true) ->
            (exists before line after rest,
                lines = before ++ line :: after
                /\ (tableStarted st' = true
                    \/ Exists (fun l => is_header_row l = true) before)
                /\ is_row line = true
                /\ cells line
                   = TimelineEntry.year e :: TimelineEntry.age e
                     :: TimelineEntry.event e :: rest) ->
            exists before line after rest,
              l :: lines = before ++ line :: after
              /\ (tableStarted st = true
                  \/ Exists (fun l => is_header_row l = true) before)
              /\ is_row line = true
              /\ cells line
                 = TimelineEntry.year e :: TimelineEntry.age e
                   :: TimelineEntry.event e :: rest).
  { intros st' Hst' [before [line [after [rest [-> [Hs [Hr Hc]]]]]]].
    exists (l :: before), line, after, rest. split; [reflexivity|].
    split; [|now split].
    destruct Hs as [Hs|Hs].
    - destruct (Hst' Hs) as [H|H]; [now left|right; now apply Exists_cons_hd].
    - right. now apply Exists_cons_tl. }
  rewrite timeline_step_cases in He.
  destruct (is_header_row l) eqn:Hh.
  - destruct He as [He|He]; [now left|right].
    apply (Hlater _ (fun _ => or_intror eq_refl) He).
  - destruct (tableStarted st && is_row l) eqn:Hrow.
    + apply andb_true_iff in Hrow as [Hst Hrow].
      destruct (cells l) as [|year [|age [|event rest]]] eqn:Hc;
        try (destruct He as [He|He]; [now left|right];
             apply (Hlater _ (fun H => or_introl H) He)).
      destruct He as [He|He].
      * cbn [timeline_so_far] in He. apply in_app_iff in He as [He|[<-|[]]];
          [now left|right].
        exists [], l, lines, rest. split; [reflexivity|].
        split; [now left|]. split; [exact Hrow|exact Hc].
      * right. apply (Hlater _ (fun H => or_introl H) He).
    + destruct He as [He|He]; [now left|right].
      apply (Hlater _ (fun H => or_introl H) He).
Qed.

Lemma cells_filled line : Forall filled (cells line).
Proof. apply filled_pieces. Qed.

End RecordFacts.

Module RecordTheorems.
Import Regex MarkdownParser Statements Coverage ParserFacts RecordFacts ProfileFacts.

(** X5. The texts of every record of the result are trimmed: its time,
    its description and its significance; and its quotes are trimmed and
    none of them is empty. *)
Theorem record_texts_clean (markdown : jsstring) (r : Location.t) :
  In r (locations (parseMarkdown markdown)) -> clean_record r.
Proof.
  apply locations_invariant.
  - apply open_location_clean.
  - apply location_fields_clean.
Qed.

Lemma record_texts_clean_witness :
  let r := nth 0 (locations (parseMarkdown MoreSamples.full_record)) (open_location []) in
  In r (locations (parseMarkdown MoreSamples.full_record))
  /\ Location.quotes r = [js "故人西辞黄鹤楼"; js "烟花三月下扬州"]
  /\ Location.time r = js "730年"
  /\ clean_record r.
Proof.
  intros r.
  assert (Hin : In r (locations (parseMarkdown MoreSamples.full_record)))
    by (vm_compute; left; reflexivity).
  split; [exact Hin|]. split; [vm_compute; reflexivity|].
  split; [vm_compute; reflexivity|].
  exact (record_texts_clean MoreSamples.full_record r Hin).
Defined.

(** X6. Every entry of the timeline comes from a row of the table in the
    timeline section: a line that starts with a bar once trimmed, holds
    neither 年份 nor three dashes, and follows a header row (a line that
    starts with a bar and holds 年份).  The year, the age and the event are
    the first three cells of the row that are not blank, trimmed. *)
Theorem timeline_entry_from_row (markdown : jsstring) (e : TimelineEntry.t) :
  In e (timeline (parseMarkdown markdown)) ->
  exists before line after rest,
    timeline_lines markdown = before ++ line :: after
    /\ Exists (fun l => is_header_row l = true) before
    /\ is_row line = true
    /\ cells line
       = TimelineEntry.year e :: TimelineEntry.age e :: TimelineEntry.event e :: rest
    /\ filled (TimelineEntry.year e)
    /\ filled (TimelineEntry.age e)
    /\ filled (TimelineEntry.event e).
Proof.
  unfold parseMarkdown, timeline_lines.
  destruct (negb (JsString.truthy markdown)); [intros []|].
  cbn [timeline]. unfold parse_timeline. cbv zeta.
  destruct (JsString.truthy (extractSection markdown timeline_header)); [|intros []].
  intros He. apply timeline_fold_origin in He as [[]|H].
  destruct H as [before [line [after [rest [E [Hs [Hr Hc]]]]]]].
  exists before, line, after, rest. split; [exact E|].
  destruct Hs as [Hs|Hs]; [discriminate|]. split; [exact Hs|].
  split; [exact Hr|]. split; [exact Hc|].
  pose proof (cells_filled line) as Hf. rewrite Hc in Hf.
  inversion Hf as [|? ? H1 Hf1]; subst. inversion Hf1 as [|? ? H2 Hf2]; subst.
  inversion Hf2 as [|? ? H3 _]; subst.
  split; [exact H1|]. split; [exact H2|exact H3].
Qed.

Lemma timeline_entry_from_row_witness :
  let e := {| TimelineEntry.year := js "762年"; TimelineEntry.age := js "61岁";
              TimelineEntry.event := js "病逝于当涂" |} in
  In e (timeline (parseMarkdown MoreSamples.table))
  /\ exists before line after rest,
       timeline_lines MoreSamples.table = before ++ line :: after
       /\ Exists (fun l => is_header_row l = true) before
       /\ is_row line = true
       /\ cells line
          = TimelineEntry.year e :: TimelineEntry.age e :: TimelineEntry.event e :: rest
       /\ filled (TimelineEntry.year e)
       /\ filled (TimelineEntry.age e)
       /\ filled (TimelineEntry.event e).
Proof.
  intros e.
  assert (Hin : In e (timeline (parseMarkdown MoreSamples.table)))
    by (vm_compute; right; left; reflexivity).
  split; [exact Hin|].
  exact (timeline_entry_from_row MoreSamples.table e Hin).
Defined.

End RecordTheorems.

(** ** The lines of a field *)

Module FieldFacts.
Import Regex RegexFacts NormalizerFacts MarkdownParser Statements Coverage.













End FieldFacts.

Module FieldTheorems.
Import Regex RegexFacts NormalizerFacts MarkdownParser Statements Coverage FieldFacts.



End FieldTheorems.

(** ** More of the resolver *)

Module CacheFacts.
Import Geocoder GeocoderSpec Statements Coverage ResolverFacts ResolverTheorems.

Section WithHost.
Context {rt : Runtime} (net : network).

(** A run touches the entries of its own query and no other, and adds its
    events at the end of the trace. *)
Lemma resolves_frame name s r s1 :
  resolves net name s r s1 ->
  (forall name', name' <> name -> GEOCODE_CACHE s1 !! name' = GEOCODE_CACHE s !! name')
  /\ (forall key, key <> cache_key name -> localStorage s1 !! key = localStorage s !! key)
  /\ exists evs, trace s1 = trace s ++ evs.
Proof.
  intros H. invert_run H;
    unfold log, remember, store, forget; cbn [GEOCODE_CACHE localStorage trace];
    (split; [|split]);
    try (intros name' Hne; rewrite ?lookup_insert_ne by congruence; reflexivity);
    try (intros key Hne;
         rewrite ?lookup_insert_ne, ?lookup_delete_ne by congruence; reflexivity);
    rewrite <- ?app_assoc; eexists; reflexivity.
Qed.

(** The runs that throw, and the runs on a name [encodeURIComponent]
    refuses. *)
Lemma resolves_throw name s e s1 :
  resolves net name s (Throw e) s1 ->
  e = URIError /\ encodeURIComponent name = None /\ GEOCODE_CACHE s !! name = None
  /\ requests s1 = requests s.
Proof.
  intros H. invert_run H; (split; [reflexivity|]); (split; [assumption|]);
    (split; [assumption|]); count_requests.
Qed.

Lemma resolves_unencoded name s r s1 :
  resolves net name s r s1 ->
  encodeURIComponent name = None ->
  requests s1 = requests s
  /\ (r = Throw URIError
      \/ exists v, r = Return v
           /\ (GEOCODE_CACHE s !! name = Some v
               \/ exists text, localStorage s !! cache_key name = Some text
                    /\ JSON_parse text = Some v)).
Proof.
  intros H Hq. invert_run H; try congruence;
    (split; [count_requests|]); eauto 8.
Qed.

(** A coordinate that came from the provider is in both layers. *)
Lemma resolves_stored name s v s1 :
  resolves net name s (Return v) s1 ->
  requests s1 = S (requests s) ->
  v <> VNull ->
  GEOCODE_CACHE s1 !! name = Some v
  /\ localStorage s1 !! cache_key name = Some (JSON_stringify v)
  /\ last (trace s1) = Some (Delay 1000).
Proof.
  intros H Hreq Hv. invert_run H; try congruence;
    try (exfalso; revert Hreq; count_requests);
    unfold log, remember, store, forget; cbn [GEOCODE_CACHE localStorage trace];
    (split; [apply lookup_insert_eq|]); (split; [apply lookup_insert_eq|]);
    apply last_snoc.
Qed.

End WithHost.

(** *** encodeURIComponent *)

Lemma unreserved_ascii c : unreserved c = true -> c < 0x80.
Proof.
  unfold unreserved.
  replace (js "-_.!~*'()") with [0x2D; 0x5F; 0x2E; 0x21; 0x7E; 0x2A; 0x27; 0x28; 0x29]
    by (vm_compute; reflexivity).
  unfold Regex.one_of. cbn [existsb].
  rewrite !orb_true_iff, !andb_true_iff, !N.leb_le, !N.eqb_eq. lia.
Qed.

Lemma unreserved_not_surrogate c :
  unreserved c = true -> Regex.is_high c = false /\ Regex.is_low c = false.
Proof.
  intros H. apply unreserved_ascii in H. unfold Regex.is_high, Regex.is_low.
  rewrite !andb_false_iff, !N.leb_gt. lia.
Qed.

Lemma high_not_low c : Regex.is_high c = true -> Regex.is_low c = false.
Proof.
  unfold Regex.is_high, Regex.is_low.
  rewrite andb_true_iff, andb_false_iff, !N.leb_le, !N.leb_gt. lia.
Qed.

Lemma option_map_none {A B} (f : A -> B) (o : option A) :
  option_map f o = None <-> o = None.
Proof. destruct o; simpl; split; congruence. Qed.

(** [encodeURIComponent] throws exactly on the strings that hold a
    surrogate half without its partner. *)
Lemma encodeURIComponent_none (n : nat) :
  forall s : jsstring, (length s <= n)%nat ->
    encodeURIComponent s = None <-> well_formed s = false.
Proof.
  induction n as [|n IH]; intros s Hlen.
  - destruct s; [|simpl in Hlen; lia]. simpl. split; congruence.
  - destruct s as [|c s']; [simpl; split; congruence|].
    simpl in Hlen. cbn [encodeURIComponent well_formed].
    destruct (unreserved c) eqn:U.
    + destruct (unreserved_not_surrogate c U) as [Hh Hl]. rewrite Hh, Hl. cbn [negb andb].
      rewrite option_map_none. apply IH. lia.
    + destruct (Regex.is_low c) eqn:L.
      * destruct (Regex.is_high c) eqn:Hh.
        -- apply high_not_low in Hh. congruence.
        -- cbn [negb andb]. tauto.
      * destruct (Regex.is_high c) eqn:Hh.
        -- destruct s' as [|l s'']; [tauto|].
           destruct (Regex.is_low l); cbn [andb]; [|tauto].
           rewrite option_map_none. apply IH. simpl in Hlen. lia.
        -- cbn [negb andb]. rewrite option_map_none. apply IH. lia.
Qed.

End CacheFacts.

Module CacheTheorems.
Import Geocoder GeocoderSpec Statements Coverage ResolverFacts ResolverTheorems CacheFacts.

(** A usable entry of the durable store is returned without a request. *)
Lemma durable_served {rt : Runtime} (net : network)
    (name : jsstring) (s : state) (text : jsstring) (parsed : value) :
  name <> [] ->
  GEOCODE_CACHE s !! name = None ->
  localStorage s !! cache_key name = Some text ->
  text <> [] ->
  JSON_parse text = Some parsed ->
  exists s1,
    geocodeCity net (QString name) s = (Return parsed, s1)
    /\ requests s1 = requests s
    /\ GEOCODE_CACHE s1 = <[name := parsed]> (GEOCODE_CACHE s)
    /\ localStorage s1 = localStorage s.
Proof.
  intros Hne Hc Hs Ht Hp. rewrite geocodeCity_unfold, Hc by exact Hne.
  rewrite (durable_lookup_hit name (log (MemoryHas name) s) text parsed Hs Ht Hp).
  eexists. split; [reflexivity|]. split; [count_requests|]. split; reflexivity.
Qed.

(** X8. A call leaves the entries of every other query as they were, in
    the in-memory cache and in the durable store, and what it does is
    added at the end of the trace. *)
Theorem other_entries_untouched {rt : Runtime} (net : network)
    (name : jsstring) (s : state) (r : completion value) (s1 : state) :
  geocodeCity net (QString name) s = (r, s1) ->
  (forall name', name' <> name -> GEOCODE_CACHE s1 !! name' = GEOCODE_CACHE s !! name')
  /\ (forall key, key <> cache_key name -> localStorage s1 !! key = localStorage s !! key)
  /\ exists evs, trace s1 = trace s ++ evs.
Proof.
  intros H. destruct name as [|c name'].
  - rewrite geocodeCity_falsy in H by exact I. injection H as <- <-.
    split; [reflexivity|]. split; [reflexivity|]. exists []. now rewrite app_nil_r.
  - apply geocodeCity_resolves in H; [|discriminate].
    exact (resolves_frame net _ _ _ _ H).
Qed.

Lemma other_entries_untouched_witness :
  let run := geocodeCity (rt := Engine.runtime) Samples.xian_network
               (QString (js "西安")) MoreSamples.luoyang_state in
  fst run = Return Samples.xian_coordinate
  /\ GEOCODE_CACHE (snd run) !! js "洛阳" = Some VNull
  /\ localStorage (snd run) !! cache_key (js "洛阳") = Some (js "null").
Proof.
  intros run.
  destruct (other_entries_untouched (rt := Engine.runtime) Samples.xian_network
              (js "西安") MoreSamples.luoyang_state (fst run) (snd run)
              (surjective_pairing run)) as [Hmem [Hsto _]].
  split; [vm_compute; reflexivity|]. split.
  - rewrite Hmem; [apply lookup_singleton_eq|].
    intros E. apply eqb_spec in E. vm_compute in E. discriminate.
  - rewrite Hsto; [apply lookup_singleton_eq|].
    intros E. apply eqb_spec in E. vm_compute in E. discriminate.
Defined.

(** X9. When the in-memory cache has no entry for a query and the durable
    store holds for it a text that is not empty and parses, the call
    returns the parsed value as it is, makes no request, sets the in-memory
    entry to that value and leaves the store as it was. *)
Theorem durable_entry_promoted {rt : Runtime} (net : network)
    (name : jsstring) (s : state) (text : jsstring) (parsed : value) :
  name <> [] ->
  GEOCODE_CACHE s !! name = None ->
  localStorage s !! cache_key name = Some text ->
  text <> [] ->
  JSON_parse text = Some parsed ->
  exists s1,
    geocodeCity net (QString name) s = (Return parsed, s1)
    /\ requests s1 = requests s
    /\ GEOCODE_CACHE s1 = <[name := parsed]> (GEOCODE_CACHE s)
    /\ localStorage s1 = localStorage s.
Proof.
  intros Hne Hc Hs Ht Hp.
  assert (Hrun : resolves net name s (Return parsed)
                   (remember name parsed
                      (log (MemorySet name parsed)
                         (log (StorageGet (cache_key name)) (log (MemoryHas name) s)))))
    by now apply (resolves_durable net name s text parsed).
  rewrite geocodeCity_unfold, Hc by exact Hne.
  rewrite (durable_lookup_hit name (log (MemoryHas name) s) text parsed Hs Ht Hp).
  eexists. split; [reflexivity|].
  split; [apply resolves_requests in Hrun; count_requests|]. split; reflexivity.
Qed.

Lemma durable_entry_promoted_witness :
  exists s1,
    geocodeCity (rt := Engine.runtime) Samples.no_match_network (QString (js "西安"))
      MoreSamples.returning_state = (Return Samples.xian_coordinate, s1)
    /\ requests s1 = requests MoreSamples.returning_state
    /\ GEOCODE_CACHE s1
       = <[js "西安" := Samples.xian_coordinate]> (GEOCODE_CACHE MoreSamples.returning_state)
    /\ localStorage s1 = localStorage MoreSamples.returning_state.
Proof.
  apply (durable_entry_promoted (rt := Engine.runtime) Samples.no_match_network
           (js "西安") MoreSamples.returning_state MoreSamples.stored_text
           Samples.xian_coordinate).
  - vm_compute. discriminate.
  - reflexivity.
  - apply lookup_singleton_eq.
  - vm_compute. discriminate.
  - vm_compute. reflexivity.
Defined.

(** X10. The one exception a call can throw is the [URIError] of a name
    that holds a surrogate half without its partner, and it is thrown only
    when neither cache answers.  A call for such a name never makes a
    request: it throws, or it returns what a cache holds for the name. *)
Theorem ill_formed_name_never_requested {rt : Runtime} (net : network)
    (name : jsstring) (s : state) (r : completion value) (s1 : state) :
  geocodeCity net (QString name) s = (r, s1) ->
  (forall e, r = Throw e ->
     e = URIError /\ well_formed name = false /\ GEOCODE_CACHE s !! name = None
     /\ requests s1 = requests s)
  /\ (well_formed name = false ->
      requests s1 = requests s
      /\ (r = Throw URIError
          \/ exists v, r = Return v
               /\ (GEOCODE_CACHE s !! name = Some v
                   \/ exists text, localStorage s !! cache_key name = Some text
                        /\ JSON_parse text = Some v))).
Proof.
  intros H. destruct name as [|c name'].
  - rewrite geocodeCity_falsy in H by exact I. injection H as <- <-.
    split; [intros e [=]|]. intros [=].
  - apply geocodeCity_resolves in H; [|discriminate]. split.
    + intros e ->. apply resolves_throw in H as [-> [Hq [Hc Hr]]].
      split; [reflexivity|]. split; [|now split].
      now apply (encodeURIComponent_none (length (c :: name'))).
    + intros Hw. apply (resolves_unencoded net _ _ _ _ H).
      now apply (encodeURIComponent_none (length (c :: name'))).
Qed.

Lemma ill_formed_name_never_requested_witness :
  let run := geocodeCity (rt := Engine.runtime) Samples.xian_network
               (QString MoreSamples.half_emoji_name) Samples.empty_state in
  fst run = Throw URIError
  /\ well_formed MoreSamples.half_emoji_name = false
  /\ requests (snd run) = requests Samples.empty_state.
Proof.
  intros run.
  assert (E : fst run = Throw URIError) by (vm_compute; reflexivity).
  destruct (ill_formed_name_never_requested (rt := Engine.runtime) Samples.xian_network
              MoreSamples.half_emoji_name Samples.empty_state (fst run) (snd run)
              (surjective_pairing run)) as [Hthrow _].
  destruct (Hthrow URIError E) as [_ [Hw [_ Hr]]].
  split; [exact E|]. split; [exact Hw|exact Hr].
Defined.

(** X11. A coordinate that a request gave is written through: the durable
    store holds its text under the key of the query, and the call ends with
    the pause of one second.  After a reload of the page, when the
    in-memory cache is empty again, the next call for the query makes no
    request and returns what that text parses to. *)
Theorem coordinate_survives_reload {rt : Runtime} (net net' : network)
    (name : jsstring) (s : state) (v : value) (s1 : state) :
  geocodeCity net (QString name) s = (Return v, s1) ->
  requests s1 = S (requests s) ->
  v <> VNull ->
  localStorage s1 !! cache_key name = Some (JSON_stringify v)
  /\ last (trace s1) = Some (Delay 1000)
  /\ forall v',
       JSON_stringify v <> [] ->
       JSON_parse (JSON_stringify v) = Some v' ->
       exists s2,
         geocodeCity net' (QString name) (reloaded s1) = (Return v', s2)
         /\ requests s2 = requests (reloaded s1).
Proof.
  intros H Hreq Hv.
  assert (Hne : name <> []).
  { intros ->. rewrite geocodeCity_falsy in H by exact I. congruence. }
  apply geocodeCity_resolves in H; [|exact Hne].
  destruct (resolves_stored net _ _ _ _ H Hreq Hv) as [_ [Hs Hlast]].
  split; [exact Hs|]. split; [exact Hlast|].
  intros v' Ht Hp.
  destruct (durable_served net' name (reloaded s1) (JSON_stringify v) v' Hne)
    as [s2 [E [Hr _]]]; try assumption; [apply lookup_empty|].
  now exists s2.
Qed.

Lemma coordinate_survives_reload_witness :
  let run := geocodeCity (rt := Engine.runtime) Samples.xian_network
               (QString (js "西安")) Samples.empty_state in
  let v := Samples.xian_coordinate in
  run = (Return v, snd run)
  /\ localStorage (snd run) !! cache_key (js "西安") = Some (Engine.stringify_text v)
  /\ exists s2,
       geocodeCity (rt := Engine.runtime) Samples.no_match_network (QString (js "西安"))
         (reloaded (snd run)) = (Return v, s2)
       /\ requests s2 = requests (reloaded (snd run)).
Proof.
  intros run v.
  assert (E : fst run = Return v) by (vm_compute; reflexivity).
  assert (H : run = (Return v, snd run)).
  { rewrite <- E. apply surjective_pairing. }
  assert (Hreq : requests (snd run) = S (requests Samples.empty_state))
    by (vm_compute; reflexivity).
  assert (Hv : v <> VNull) by discriminate.
  destruct (coordinate_survives_reload (rt := Engine.runtime) Samples.xian_network
              Samples.no_match_network (js "西安") Samples.empty_state v (snd run)
              H Hreq Hv) as [Hs [_ Hreload]].
  split; [exact H|]. split; [exact Hs|].
  apply Hreload.
  - vm_compute. discriminate.
  - vm_compute. reflexivity.
Defined.

End CacheTheorems.

(** ** The URL of a request *)

Module UrlFacts.
Import Geocoder GeocoderSpec Statements Coverage ResolverFacts ResolverTheorems CacheFacts.

Lemma unreserved_digit c : 0x30 <= c <= 0x39 -> unreserved c = true.
Proof.
  intros H. unfold unreserved.
  replace ((0x30 <=? c) && (c <=? 0x39)) with true; [now rewrite !orb_true_r|].
  symmetry. apply andb_true_iff. rewrite !N.leb_le. lia.
Qed.

Lemma unreserved_upper c : 0x41 <= c <= 0x5A -> unreserved c = true.
Proof.
  intros H. unfold unreserved.
  replace ((0x41 <=? c) && (c <=? 0x5A)) with true; [reflexivity|].
  symmetry. apply andb_true_iff. rewrite !N.leb_le. lia.
Qed.

Lemma hex_digit_safe d : d < 16 -> url_safe (hex_digit d) = true.
Proof.
  intros H. unfold url_safe, hex_digit. destruct (d <? 10) eqn:E.
  - apply N.ltb_lt in E. rewrite unreserved_digit; [reflexivity|lia].
  - apply N.ltb_ge in E. rewrite unreserved_upper; [reflexivity|lia].
Qed.

Lemma percent_safe b : b < 256 -> forallb url_safe (percent b) = true.
Proof.
  intros H. unfold percent. cbn [forallb].
  rewrite !hex_digit_safe.
  - reflexivity.
  - apply N.mod_lt. lia.
  - apply N.Div0.div_lt_upper_bound. lia.
Qed.

Lemma utf8_bytes_small cp : cp < 0x110000 -> Forall (fun b => b < 256) (utf8_bytes cp).
Proof.
  intros H. unfold utf8_bytes.
  assert (M : forall x, x mod 64 < 64) by (intros x; apply N.mod_lt; lia).
  destruct (cp <? 0x80) eqn:E1; [apply N.ltb_lt in E1; repeat constructor; lia|].
  destruct (cp <? 0x800) eqn:E2.
  { apply N.ltb_lt in E2.
    assert (cp / 64 < 32) by (apply N.Div0.div_lt_upper_bound; lia).
    pose proof (M cp). repeat constructor; lia. }
  destruct (cp <? 0x10000) eqn:E3.
  { apply N.ltb_lt in E3.
    assert (cp / 4096 < 16) by (apply N.Div0.div_lt_upper_bound; lia).
    pose proof (M cp). pose proof (M (cp / 64)). repeat constructor; lia. }
  assert (cp / 262144 < 5) by (apply N.Div0.div_lt_upper_bound; lia).
  pose proof (M cp). pose proof (M (cp / 64)). pose proof (M (cp / 4096)).
  repeat constructor; lia.
Qed.

Lemma encoded_safe cp :
  cp < 0x110000 -> forallb url_safe (flat_map percent (utf8_bytes cp)) = true.
Proof.
  intros H. apply utf8_bytes_small in H.
  induction H as [|b bs Hb _ IH]; [reflexivity|].
  cbn [flat_map]. rewrite forallb_app, IH, percent_safe by exact Hb. reflexivity.
Qed.

Lemma pair_code_point_small h l :
  Regex.is_high h = true -> Regex.is_low l = true ->
  Regex.pair_code_point h l < 0x110000.
Proof.
  unfold Regex.is_high, Regex.is_low, Regex.pair_code_point.
  rewrite !andb_true_iff, !N.leb_le. lia.
Qed.

(** What [encodeURIComponent] returns holds unreserved characters and
    percent escapes only. *)
Lemma encodeURIComponent_safe (n : nat) :
  forall s q : jsstring, (length s <= n)%nat -> code_units s ->
    encodeURIComponent s = Some q -> forallb url_safe q = true.
Proof.
  induction n as [|n IH]; intros s q Hlen Hs.
  - destruct s; [|simpl in Hlen; lia]. now intros [= <-].
  - destruct s as [|c s']; [now intros [= <-]|].
    simpl in Hlen. inversion Hs as [|? ? Hc Hs']; subst.
    cbn [encodeURIComponent].
    destruct (unreserved c) eqn:U.
    + destruct (encodeURIComponent s') as [q'|] eqn:E; [|discriminate].
      intros [= <-]. cbn [forallb]. unfold url_safe at 1. rewrite U.
      apply (IH s' q'); [lia|exact Hs'|exact E].
    + destruct (Regex.is_low c); [discriminate|].
      destruct (Regex.is_high c) eqn:Hh.
      * destruct s' as [|l s'']; [discriminate|].
        destruct (Regex.is_low l) eqn:Hl; [|discriminate].
        destruct (encodeURIComponent s'') as [q'|] eqn:E; [|discriminate].
        intros [= <-]. rewrite forallb_app.
        rewrite encoded_safe by now apply pair_code_point_small.
        inversion Hs'; subst. apply (IH s'' q'); [simpl in Hlen; lia|assumption|exact E].
      * destruct (encodeURIComponent s') as [q'|] eqn:E; [|discriminate].
        intros [= <-]. rewrite forallb_app, encoded_safe by lia.
        apply (IH s' q'); [lia|exact Hs'|exact E].
Qed.

Section WithHost.
Context {rt : Runtime} (net : network).

(** The request of a run is the search for the encoded name. *)
Lemma resolves_url name s r s1 url :
  resolves net name s r s1 ->
  In (Fetch url) (new_events s s1) ->
  exists q, encodeURIComponent name = Some q /\ url = search_url q.
Proof.
  intros H Hin.
  invert_run H; revert Hin; events; cbn [In]; intros Hin;
    repeat match goal with
           | H : _ \/ _ |- _ => destruct H
           | H : False |- _ => destruct H
           | H : Fetch _ = Fetch _ |- _ => injection H as <-
           | H : _ = Fetch _ |- _ => discriminate H
           end;
    eauto.
Qed.

End WithHost.
End UrlFacts.

Module UrlTheorems.
Import Geocoder GeocoderSpec Statements Coverage ResolverFacts ResolverTheorems CacheFacts
  UrlFacts.

(** X12. The URL of every request a call makes is the search address with
    the encoded name as its [q] parameter, and the encoded name holds
    nothing but unreserved characters and percent escapes: no character of
    the name can end the parameter or add another one. *)
Theorem request_url_is_safe {rt : Runtime} (net : network)
    (name : jsstring) (s : state) (r : completion value) (s1 : state) (url : jsstring) :
  code_units name ->
  geocodeCity net (QString name) s = (r, s1) ->
  In (Fetch url) (new_events s s1) ->
  exists q,
    encodeURIComponent name = Some q
    /\ url = js "https://nominatim.openstreetmap.org/search?format=json&q=" ++ q
             ++ js "&limit=1"
    /\ forallb url_safe q = true.
Proof.
  intros Hname H Hin. destruct name as [|c name'].
  - rewrite geocodeCity_falsy in H by exact I. injection H as <- <-.
    unfold new_events in Hin. rewrite skipn_all in Hin. destruct Hin.
  - apply geocodeCity_resolves in H; [|discriminate].
    destruct (resolves_url net _ _ _ _ _ H Hin) as [q [Hq ->]].
    exists q. split; [exact Hq|]. split; [reflexivity|].
    now apply (encodeURIComponent_safe (length (c :: name')) (c :: name')).
Qed.

Lemma request_url_is_safe_witness :
  let name := js "西安&limit=50" in
  let run := geocodeCity (rt := Engine.runtime) Samples.no_match_network
               (QString name) Samples.empty_state in
  let url := search_url (js "%E8%A5%BF%E5%AE%89%26limit%3D50") in
  In (Fetch url) (new_events Samples.empty_state (snd run))
  /\ exists q,
       encodeURIComponent name = Some q
       /\ url = js "https://nominatim.openstreetmap.org/search?format=json&q=" ++ q
                ++ js "&limit=1"
       /\ forallb url_safe q = true.
Proof.
  intros name run url.
  assert (Hin : In (Fetch url) (new_events Samples.empty_state (snd run))).
  { vm_compute. tauto. }
  split; [exact Hin|].
  apply (request_url_is_safe (rt := Engine.runtime) Samples.no_match_network name
           Samples.empty_state (fst run) (snd run) url).
  - unfold code_units. apply List.Forall_forall. intros c Hc.
    assert (A : forallb (fun c => c <? 0x10000) name = true)
      by (vm_compute; reflexivity).
    rewrite forallb_forall in A. apply N.ltb_lt. now apply A.
  - apply surjective_pairing.
  - exact Hin.
Defined.

End UrlTheorems.

(** ** More of the loop *)

Module MergeFacts.
Import Geocoder GeocoderSpec Statements Coverage App ResolverFacts LoopFacts.

Lemma eqb_sym (a b : jsstring) : JsString.eqb a b = JsString.eqb b a.
Proof.
  destruct (JsString.eqb a b) eqn:E.
  - apply eqb_spec in E as ->. symmetry. apply eqb_refl.
  - destruct (JsString.eqb b a) eqn:E'; [|reflexivity].
    apply eqb_spec in E' as ->. now rewrite eqb_refl in E.
Qed.

(** [o[k] = v] and the value read back. *)
Lemma lookup_assign key k v props :
  Value.lookup key (Value.assign k v props)
  = if JsString.eqb k key then Some v else Value.lookup key props.
Proof.
  induction props as [|[k0 v0] props IH]; cbn [Value.assign Value.lookup].
  - destruct (JsString.eqb k key); reflexivity.
  - destruct (JsString.eqb k0 k) eqn:E0; cbn [Value.lookup].
    + apply eqb_spec in E0 as ->. destruct (JsString.eqb k key); reflexivity.
    + destruct (JsString.eqb k0 key) eqn:E1; [|exact IH].
      apply eqb_spec in E1 as ->. now rewrite eqb_sym, E0.
Qed.

(** Spreading [more] over [props]: the last property of a name wins. *)
Lemma lookup_spread key (more : list (jsstring * value)) : forall props,
  Value.lookup key
    (fold_left (fun props kv => Value.assign (fst kv) (snd kv) props) more props)
  = match Value.lookup key (rev more) with
    | Some v => Some v
    | None => Value.lookup key props
    end.
Proof.
  induction more as [|[k v] more IH] using rev_ind; intros props; [reflexivity|].
  rewrite fold_left_app, rev_app_distr. cbn [fold_left rev app fst snd Value.lookup].
  rewrite lookup_assign. destruct (JsString.eqb k key); [reflexivity|apply IH].
Qed.

(** Reading a property of [{ ...loc, ...coords }]. *)
Lemma merge_get (loc : Location.t) (coords : value) (key : jsstring) :
  Value.get (merge loc coords) key
  = match Value.lookup key (rev (Value.own_properties coords)) with
    | Some v => v
    | None => Value.get (VObject (properties loc)) key
    end.
Proof.
  unfold merge, Value.get. cbn [Value.own_properties]. rewrite lookup_spread.
  now destruct (Value.lookup key (rev (Value.own_properties coords))).
Qed.

End MergeFacts.

Module LoopBounds.
Import Geocoder GeocoderSpec Statements Coverage App ResolverFacts LoopFacts MergeFacts.

Section WithHost.
Context {rt : Runtime} (net : network).

Lemma geocodeCity_requests_snd q s :
  (requests s <= requests (snd (geocodeCity net q s)) <= requests s + 1)%nat.
Proof.
  destruct (geocodeCity net q s) as [r s1] eqn:E.
  now apply geocodeCity_requests in E.
Qed.

(** A round of the loop makes at most two requests. *)
Lemma geocode_location_requests acc loc s :
  (requests s <= requests (snd (geocode_location net acc loc s)) <= requests s + 2)%nat.
Proof.
  rewrite geocode_location_unfold.
  pose proof (geocodeCity_requests_snd (QString (geoName loc)) s) as H1.
  destruct (geocodeCity net (QString (geoName loc)) s) as [[coords|e] s1];
    cbn [snd] in *; [|lia].
  destruct (Value.truthy coords); cbn [snd]; [lia|].
  destruct (negb (JsString.eqb (geoName loc) (Location.name loc))); cbn [snd]; [|lia].
  pose proof (geocodeCity_requests_snd (QString (Location.name loc)) s1) as H2.
  destruct (geocodeCity net (QString (Location.name loc)) s1) as [[coords2|e] s2];
    cbn [snd] in *; lia.
Qed.

Lemma geocode_locations_requests locations : forall acc s,
  (requests s <= requests (snd (geocode_locations net locations acc s))
   <= requests s + 2 * length locations)%nat.
Proof.
  induction locations as [|loc rest IH]; intros acc s; cbn [geocode_locations].
  - cbn. lia.
  - unfold bind. pose proof (geocode_location_requests acc loc s) as H1.
    destruct (geocode_location net acc loc s) as [[acc'|e] s1]; cbn [snd] in *.
    + specialize (IH acc' s1). cbn [length]. lia.
    + cbn [length]. lia.
Qed.

(** The loop adds to its result, and at most one record a round. *)
Lemma geocode_locations_length locations : forall acc s out s',
  geocode_locations net locations acc s = (Return out, s') ->
  (length acc <= length out <= length acc + length locations)%nat.
Proof.
  intros acc s out s' H. apply geocode_locations_kept in H as [ks [-> [Hs _]]].
  apply sublist_length in Hs. rewrite length_map in Hs.
  rewrite length_app, length_map. unfold kept in *. lia.
Qed.

End WithHost.
End LoopBounds.

Module LoopMore.
Import Geocoder GeocoderSpec Statements Coverage App ResolverFacts LoopFacts MergeFacts
  LoopBounds.

(** X13. A run of the orchestrator from the text of a biography makes at
    most two requests for each location of the text.  It ends without a
    call of the resolver exactly when the text has no location, and then
    the state is as before; the locations of a map message are at least
    one and no more than the text has. *)
Theorem run_bounded_by_locations {rt : Runtime} (net : network)
    (markdown : jsstring) (s : state) :
  let locations := MarkdownParser.locations (MarkdownParser.parseMarkdown markdown) in
  let run := handleGenerate_from net markdown s in
  (requests s <= requests (snd run) <= requests s + 2 * length locations)%nat
  /\ (fst run = NoLocations <-> locations = [])
  /\ (locations = [] -> snd run = s)
  /\ (forall out, fst run = Map out ->
        (1 <= length out <= length locations)%nat).
Proof.
  intros locations run. subst run. unfold handleGenerate_from. cbv zeta.
  fold locations. destruct locations as [|loc rest] eqn:E.
  - cbn. split; [lia|]. split; [tauto|]. split; [reflexivity|]. intros out [=].
  - pose proof (geocode_locations_requests net (loc :: rest) [] s) as Hreq.
    pose proof (geocode_locations_length net (loc :: rest) [] s) as Hlen.
    destruct (geocode_locations net (loc :: rest) [] s) as [[[|v out]|e] s'];
      cbn [fst snd] in *.
    + split; [exact Hreq|]. split; [split; discriminate|]. split; [discriminate|].
      intros out [=].
    + split; [exact Hreq|]. split; [split; discriminate|]. split; [discriminate|].
      intros out' [= <-]. specialize (Hlen _ _ eq_refl). cbn [length] in *. lia.
    + split; [exact Hreq|]. split; [split; discriminate|]. split; [discriminate|].
      intros out [=].
Qed.

(** X14. The record that goes on the map, [{ ...loc, ...coords }], has
    the properties of the coordinate and, under every other name, the
    properties of the record of the extractor: reading a property gives the
    last one of that name in the coordinate, and the one of the record when
    the coordinate has none.  With a coordinate made from a match of the
    provider, [lat] and [lng] are its two numbers and [name] is the name of
    the record. *)
Theorem merged_record_properties {rt : Runtime} (loc : Location.t) :
  (forall coords key,
      Value.get (merge loc coords) key
      = match Value.lookup key (rev (Value.own_properties coords)) with
        | Some v => v
        | None => Value.get (VObject (properties loc)) key
        end)
  /\ (forall data,
        Value.get (merge loc (coordinate data)) (js "lat")
        = VNumber (parseFloat (Value.get (Value.first data) (js "lat")))
        /\ Value.get (merge loc (coordinate data)) (js "lng")
           = VNumber (parseFloat (Value.get (Value.first data) (js "lon")))
        /\ Value.get (merge loc (coordinate data)) (js "name")
           = VString (Location.name loc)).
Proof.
  split; [intros coords key; apply merge_get|]. intros data. rewrite !merge_get.
  unfold coordinate. cbn [Value.own_properties rev app Value.lookup].
  replace (JsString.eqb (js "lng") (js "lat")) with false by (vm_compute; reflexivity).
  replace (JsString.eqb (js "lat") (js "name")) with false by (vm_compute; reflexivity).
  replace (JsString.eqb (js "lng") (js "name")) with false by (vm_compute; reflexivity).
  rewrite !eqb_refl. split; [reflexivity|]. split; [reflexivity|].
  unfold Value.get, properties. cbn [Value.own_properties app Value.lookup].
  now rewrite eqb_refl.
Qed.

End LoopMore.

(** ** The map *)

Module MapFacts.
Import Statements Coverage StoryMap.

Lemma filter_all {A} (f : A -> bool) (l : list A) :
  (forall x, f x = true) -> List.filter f l = l.
Proof.
  intros H. induction l as [|x l IH]; cbn [List.filter]; [reflexivity|].
  now rewrite H, IH.
Qed.

Lemma filter_twice {A} (f g : A -> bool) (l : list A) :
  List.filter f (List.filter g l) = List.filter (fun x => g x && f x) l.
Proof.
  induction l as [|x l IH]; cbn [List.filter]; [reflexivity|].
  destruct (g x); cbn [List.filter andb]; [|exact IH].
  destruct (f x); now rewrite IH.
Qed.

(** The layers left when the remembered ones are removed. *)
Lemma layers_removed (ids : list nat) : forall s,
  layers (fold_left remove_layer ids s)
  = List.filter (fun il => negb (existsb (Nat.eqb (fst il)) ids)) (layers s)
  /\ fresh (fold_left remove_layer ids s) = fresh s
  /\ mapInstanceRef (fold_left remove_layer ids s) = mapInstanceRef s
  /\ shown (fold_left remove_layer ids s) = shown s.
Proof.
  induction ids as [|id ids IH]; intros s; cbn [fold_left existsb].
  - split; [|now split]. symmetry. now apply filter_all.
  - destruct (IH (remove_layer s id)) as [E [Ef [Em Es]]].
    rewrite E, Ef, Em, Es. cbn [remove_layer layers fresh mapInstanceRef shown].
    split; [|now split]. rewrite filter_twice. apply List.filter_ext.
    intros il. now rewrite negb_orb.
Qed.

Lemma existsb_eqb_In (id : nat) (ids : list nat) :
  In id ids -> existsb (Nat.eqb id) ids = true.
Proof.
  intros H. apply existsb_exists. exists id. split; [exact H|apply Nat.eqb_refl].
Qed.

Lemma NoDup_filter_fst {A} (f : nat * A -> bool) (l : list (nat * A)) :
  NoDup (map fst l) -> NoDup (map fst (List.filter f l)).
Proof.
  induction l as [|x l IH]; cbn [map List.filter]; [trivial|].
  intros H. inversion H as [|? ? Hx Hl]; subst. destruct (f x); [|now apply IH].
  cbn [map]. constructor; [|now apply IH].
  intros Hin. apply Hx. apply list_elem_of_In in Hin. apply list_elem_of_In.
  apply in_map_iff in Hin as [y [Ey Hy]]. apply filter_In in Hy as [Hy _].
  apply in_map_iff. now exists y.
Qed.

(** Clearing takes every drawn layer off the map. *)
Lemma clear_tidy s :
  tidy s -> tidy (clear s) /\ drawn (clear s) = [] /\ markersRef (clear s) = []
  /\ mapInstanceRef (clear s) = mapInstanceRef s /\ shown (clear s) = shown s.
Proof.
  intros [Hall Hnd]. unfold clear. cbv zeta.
  destruct (layers_removed (markersRef s) s) as [E [Ef [Em Es]]].
  unfold tidy, drawn. cbn [layers fresh markersRef mapInstanceRef shown].
  rewrite E, Ef. split; [split|split; [|now split]].
  - apply List.Forall_forall. intros il Hin. apply filter_In in Hin as [Hin Hkeep].
    rewrite List.Forall_forall in Hall. destruct (Hall il Hin) as [Hlt Hmark].
    split; [exact Hlt|]. intros Ht. apply Hmark, existsb_eqb_In in Ht.
    rewrite Ht in Hkeep. discriminate.
  - now apply NoDup_filter_fst.
  - clear E Hnd. revert Hall. generalize (layers s) as l.
    induction l as [|il l IHl]; intros Hall; [reflexivity|].
    inversion Hall as [|? ? [_ Hmark] Hl]; subst.
    cbn [List.filter].
    destruct (negb (existsb (Nat.eqb (fst il)) (markersRef s))) eqn:K;
      [|now apply IHl].
    cbn [map List.filter]. destruct (is_tile (snd il)) eqn:T; cbn [negb];
      [now apply IHl|].
    pose proof (existsb_eqb_In _ _ (Hmark eq_refl)) as Hin.
    rewrite Hin in K. discriminate.
Qed.

(** Drawing adds one layer, which the component remembers. *)
Lemma draw_tidy l s :
  is_tile l = false ->
  tidy s ->
  tidy (draw l s) /\ drawn (draw l s) = drawn s ++ [l]
  /\ mapInstanceRef (draw l s) = mapInstanceRef s /\ shown (draw l s) = shown s.
Proof.
  intros Hl [Hall Hnd]. unfold tidy, drawn, draw.
  cbn [layers fresh markersRef mapInstanceRef shown].
  split; [split|split; [|now split]].
  - apply Forall_app. split.
    + eapply List.Forall_impl; [|exact Hall]. intros il [Hlt Hmark].
      split; [lia|]. intros Ht. apply in_app_iff. left. now apply Hmark.
    + constructor; [|constructor]. cbn [fst snd]. split; [lia|].
      intros _. apply in_app_iff. right. now left.
  - rewrite map_app. cbn [map fst]. apply NoDup_app. split; [exact Hnd|].
    split; [|apply NoDup_singleton].
    intros id Hid. rewrite list_elem_of_In in Hid.
    apply in_map_iff in Hid as [il [<- Hil]].
    rewrite List.Forall_forall in Hall. destruct (Hall il Hil) as [Hlt _].
    intros Hin. apply list_elem_of_In in Hin. destruct Hin as [Hin|[]]. lia.
  - rewrite map_app, List.filter_app. cbn [map snd List.filter]. now rewrite Hl.
Qed.

Section WithHost.
Context (ToString : value -> jsstring).

(** [forEach]: a marker for each record that has both coordinates, in
    the order of the records. *)
Lemma forEach_draws (locations : list value) : forall latlngs s,
  tidy s ->
  tidy (snd (forEach ToString locations latlngs s))
  /\ mapInstanceRef (snd (forEach ToString locations latlngs s)) = mapInstanceRef s
  /\ shown (snd (forEach ToString locations latlngs s)) = shown s
  /\ (Forall (fun loc => nullish loc = false) locations ->
      fst (forEach ToString locations latlngs s)
      = Geocoder.Return (latlngs ++ map position (List.filter located locations))
      /\ drawn (snd (forEach ToString locations latlngs s))
         = drawn s ++ map (marker ToString) (List.filter located locations)).
Proof.
  induction locations as [|loc rest IH]; intros latlngs s Ht; cbn [forEach].
  - cbn [fst snd List.filter map]. rewrite !app_nil_r.
    split; [exact Ht|]. split; [reflexivity|]. split; [reflexivity|].
    intros _. split; reflexivity.
  - unfold draw_location. destruct (nullish loc) eqn:Hn.
    + cbn [fst snd]. split; [exact Ht|]. split; [reflexivity|]. split; [reflexivity|].
      intros Hall. inversion Hall; subst. congruence.
    + destruct (located loc) eqn:Hloc; cbn [negb List.filter].
      * destruct (draw_tidy (marker ToString loc) s eq_refl Ht) as [Ht' [Hd [Hm Hs]]].
        destruct (IH (latlngs ++ [(Value.get loc (js "lat"), Value.get loc (js "lng"))])
                    (draw (marker ToString loc) s) Ht') as [H1 [H2 [H3 H4]]].
        split; [exact H1|]. split; [now rewrite H2|]. split; [now rewrite H3|].
        intros Hall. inversion Hall as [|? ? _ Hrest]; subst.
        destruct (H4 Hrest) as [E1 E2]. rewrite E1, E2, Hd, Hloc.
        cbn [map]. unfold position at 2. now rewrite <- !app_assoc.
      * destruct (IH latlngs s Ht) as [H1 [H2 [H3 H4]]].
        split; [exact H1|]. split; [exact H2|]. split; [exact H3|].
        intros Hall. inversion Hall as [|? ? _ Hrest]; subst. rewrite Hloc.
        now apply H4.
Qed.

End WithHost.

End MapFacts.

Module MapTheorems.
Import Geocoder GeocoderSpec Statements Coverage App StoryMap MergeFacts MapFacts.

(** X16. What the map shows after the effect has run for an array of
    records, none of them [undefined] or [null]: whatever was drawn before
    is gone; there is one marker for each record whose [lat] and [lng] are
    both truthy, in the order of the records, and no marker for the others
    (a coordinate of zero or NaN counts as none); a path through the
    markers when there are at least two; and the view is fitted to the
    markers when there is at least one. *)
Theorem map_shows_located_records (ToString : value -> jsstring)
    (locations : list value) (s : StoryMap.state) :
  mapInstanceRef s = true ->
  tidy s ->
  Forall (fun loc => nullish loc = false) locations ->
  let run := update_markers ToString (VArray locations) s in
  fst run = Return tt
  /\ drawn (snd run) = picture ToString locations
  /\ shown (snd run)
     = match List.filter located locations with
       | [] => shown s
       | _ => FitBounds (map position (List.filter located locations))
       end.
Proof.
  intros Hmap Ht Hall run. subst run. unfold update_markers. rewrite Hmap.
  cbn [negb Value.truthy orb length_is_zero]. cbv zeta.
  destruct (clear_tidy s Ht) as [Hc [Hd [_ [Hm Hs]]]].
  destruct locations as [|loc rest].
  - cbn [length Nat.eqb fst snd List.filter]. split; [reflexivity|].
    split; [exact Hd|exact Hs].
  - cbn [length Nat.eqb].
    remember (loc :: rest) as locs eqn:Elocs. clear Elocs loc rest.
    destruct (forEach_draws ToString locs [] (clear s) Hc)
      as [Ht' [_ [Hs' Hdraw]]].
    destruct (Hdraw Hall) as [E1 E2]. clear Hdraw.
    destruct (forEach ToString locs [] (clear s)) as [[latlngs|e] s'];
      cbn [fst snd] in *; [|discriminate].
    injection E1 as ->. cbn [app]. rewrite length_map.
    unfold picture. cbv zeta. rewrite Hd in E2. cbn [app] in E2.
    destruct (List.filter StoryMap.located locs) as [|l1 [|l2 more]];
      cbn [length Nat.ltb Nat.leb]; (split; [reflexivity|]).
    + cbn [map app] in *. split; [exact E2|]. now rewrite Hs'.
    + split; [|reflexivity]. rewrite app_nil_r. exact E2.
    + destruct (draw_tidy (Polyline (map position (l1 :: l2 :: more))) s' eq_refl Ht')
        as [_ [Hd' _]].
      cbn [fitBounds shown]. split; [|reflexivity].
      unfold drawn in *. cbn [layers fitBounds]. now rewrite Hd', E2.
Qed.

Lemma map_shows_located_records_witness :
  let run := update_markers Engine.to_string (VArray MoreSamples.three_places)
               MoreSamples.empty_map in
  fst run = Return tt
  /\ drawn (snd run) = picture Engine.to_string MoreSamples.three_places
  /\ length (drawn (snd run)) = 3%nat
  /\ map located MoreSamples.three_places = [true; false; true].
Proof.
  intros run.
  assert (Ht : tidy MoreSamples.empty_map).
  { split.
    - repeat constructor; cbn; try lia; discriminate.
    - cbn. apply NoDup_cons. split; [|apply NoDup_singleton].
      intros Hin. apply list_elem_of_In in Hin. destruct Hin as [Hin|[]]. discriminate. }
  destruct (map_shows_located_records Engine.to_string MoreSamples.three_places
              MoreSamples.empty_map eq_refl Ht) as [E [Hd _]].
  { repeat constructor. }
  split; [exact E|]. split; [exact Hd|]. split; vm_compute; reflexivity.
Defined.

(** X17. Every layer the component draws stays under its control: from
    the start, and through each of its effects (setting the map up, taking
    it down, and drawing for any value of [locations], also when drawing
    throws half way), every marker and path on the map is one that
    [markersRef] remembers, so that the next run of the effect removes
    it. *)
Theorem map_stays_tidy (ToString : value -> jsstring) :
  tidy unmounted
  /\ forall s,
       tidy s ->
       tidy (initialize s)
       /\ tidy (cleanup s)
       /\ (forall locations, tidy (snd (update_markers ToString locations s)))
       /\ drawn (clear s) = [].
Proof.
  split; [split; constructor|].
  intros s Ht. split; [|split; [|split]].
  - unfold initialize. destruct (mapInstanceRef s); [exact Ht|].
    split; cbn [layers fresh markersRef].
    + constructor; [cbn; split; [lia|discriminate]|].
      constructor; [cbn; split; [lia|discriminate]|constructor].
    + cbn [map fst]. apply NoDup_cons. split; [|apply NoDup_singleton].
      intros Hin. apply list_elem_of_In in Hin. destruct Hin as [Hin|[]]. lia.
  - unfold cleanup. destruct (mapInstanceRef s); [|exact Ht].
    split; cbn [layers]; constructor.
  - intros locations. unfold update_markers.
    destruct (mapInstanceRef s); cbn [negb snd]; [|exact Ht]. cbv zeta.
    destruct (clear_tidy s Ht) as [Hc _].
    destruct (negb (Value.truthy locations) || length_is_zero locations);
      [exact Hc|].
    destruct locations as [| | | | |locs|]; try exact Hc.
    destruct (forEach_draws ToString locs [] (clear s) Hc) as [Ht' _].
    destruct (forEach ToString locs [] (clear s)) as [[latlngs|e] s'];
      cbn [snd] in *; [|exact Ht'].
    assert (Hpath : tidy (if Nat.ltb 1 (length latlngs)
                          then draw (Polyline latlngs) s' else s')).
    { destruct (Nat.ltb 1 (length latlngs)); [|exact Ht'].
      now apply draw_tidy. }
    destruct (Nat.ltb 0 (length latlngs)); exact Hpath.
  - now apply clear_tidy.
Qed.

(** X18. From the resolver to the map.  A coordinate made from a match of
    the provider is an object, so the loop keeps its record; the map gives
    the record a marker exactly when the two numbers of the coordinate are
    neither zero nor NaN. *)
Theorem coordinate_on_the_map {rt : Runtime} (loc : Location.t) (data : value) :
  Value.truthy (coordinate data) = true
  /\ located (merge loc (coordinate data))
     = visible_number (parseFloat (Value.get (Value.first data) (js "lat")))
       && visible_number (parseFloat (Value.get (Value.first data) (js "lon"))).
Proof.
  split; [reflexivity|]. unfold located. rewrite !merge_get.
  unfold coordinate. cbn [Value.own_properties rev app Value.lookup].
  replace (JsString.eqb (js "lng") (js "lat")) with false by (vm_compute; reflexivity).
  rewrite !eqb_refl. reflexivity.
Qed.

End MapTheorems.

(** ** The answers of the language model *)

Module AiFacts.
Import Regex RegexFacts Statements Coverage Ai.

Lemma bracket_regex_eq :
  bracket_regex
  = Seq (Class (N.eqb open_bracket))
      (Seq (Star (Class (fun _ => true))) (Class (N.eqb close_bracket))).
Proof. reflexivity. Qed.

(** The greedy [.*] before [\]] stops at the last closing bracket. *)
Lemma run_any_close n0 (s : jsstring) c :
  run n0 (Star (Class (fun _ => true))) s c
    (fun s' c' => run n0 (Class (N.eqb close_bracket)) s' c' accept)
  = option_map (fun rest => (rest, c)) (after_last_bracket s).
Proof.
  induction s as [|x s IH]; rewrite run_star_class.
  - reflexivity.
  - rewrite IH. cbn [after_last_bracket].
    destruct (after_last_bracket s) as [rest|]; [reflexivity|].
    rewrite run_class, N.eqb_sym. now destruct (x =? close_bracket).
Qed.

Lemma match_here_bracket n0 (s : jsstring) :
  match_here n0 bracket_regex s
  = match s with
    | x :: s' =>
      if x =? open_bracket
      then option_map (fun rest => (rest, [])) (after_last_bracket s')
      else None
    | [] => None
    end.
Proof.
  unfold match_here. rewrite bracket_regex_eq, run_seq, run_class.
  destruct s as [|x s']; [reflexivity|].
  rewrite N.eqb_sym. destruct (x =? open_bracket); [|reflexivity].
  rewrite run_seq. apply run_any_close.
Qed.

Lemma after_last_bracket_none (s : jsstring) :
  forallb (fun c => negb (c =? close_bracket)) s = true -> after_last_bracket s = None.
Proof.
  induction s as [|x s IH]; cbn [forallb after_last_bracket]; [reflexivity|].
  intros H. apply andb_true_iff in H as [Hx Hs]. rewrite IH by exact Hs.
  apply negb_true_iff in Hx. now rewrite Hx.
Qed.

Lemma after_last_bracket_app (mid post : jsstring) :
  forallb (fun c => negb (c =? close_bracket)) post = true ->
  after_last_bracket (mid ++ close_bracket :: post) = Some post.
Proof.
  intros Hpost. induction mid as [|x mid IH]; cbn [app after_last_bracket].
  - rewrite after_last_bracket_none by exact Hpost. reflexivity.
  - now rewrite IH.
Qed.

(** The search passes over what has no opening bracket. *)
Lemma search_bracket_skip n0 (pre s : jsstring) :
  forallb (fun c => negb (c =? open_bracket)) pre = true ->
  forall i, search n0 bracket_regex (pre ++ open_bracket :: s) i
            = search n0 bracket_regex (open_bracket :: s) (i + length pre)%nat.
Proof.
  induction pre as [|x pre IH]; intros Hpre i.
  - cbn [app length]. now rewrite Nat.add_0_r.
  - cbn [forallb] in Hpre. apply andb_true_iff in Hpre as [Hx Hpre].
    apply negb_true_iff in Hx.
    replace (i + length (x :: pre))%nat with (S i + length pre)%nat
      by (cbn [length]; lia).
    rewrite <- IH by exact Hpre.
    cbn [app search]. now rewrite match_here_bracket, Hx.
Qed.

Lemma names_not_blank (items : list value) :
  Forall (fun name => JsString.trim name <> []) (names items).
Proof.
  induction items as [|item items IH]; cbn [names]; [constructor|].
  destruct item; try exact IH.
  destruct (JsString.truthy (JsString.trim s)) eqn:T; [|exact IH].
  constructor; [|exact IH]. intros E. rewrite E in T. discriminate.
Qed.

Lemma whole_answer_not_blank (text : jsstring) :
  Forall (fun name => JsString.trim name <> []) (whole_answer text).
Proof.
  unfold whole_answer. destruct (JsString.truthy (JsString.trim text)) eqn:T;
    constructor; [|constructor].
  rewrite trim_trim. intros E. rewrite E in T. discriminate.
Qed.

End AiFacts.

Module AiTheorems.
Import Regex RegexFacts Statements Coverage Ai AiFacts.

(** X19. Whatever [callLLM] returned, every name [extractHistoricalFigures]
    gives is a string that is not blank; the person of a run is the first of
    them. *)
Theorem figures_not_blank {rt : Runtime} (result : value) :
  Forall (fun name => JsString.trim name <> []) (figures result).
Proof.
  unfold figures. destruct (negb (Value.truthy result)); [constructor|].
  destruct result; try constructor.
  fold (whole_answer s).
  destruct (exec bracket_regex s) as [m|]; [|apply whole_answer_not_blank].
  destruct (JSON_parse (matched m)) as [[| | | | |data|]|];
    try apply whole_answer_not_blank; [apply names_not_blank|constructor].
Qed.

(** X20. The list of names is read from the first opening bracket of the
    answer to its last closing bracket, whatever lies between: when that
    text is a JSON array, its strings that are not blank are the result;
    when it is not JSON, the result is empty. *)
Theorem figures_from_widest_brackets {rt : Runtime} (pre mid post : jsstring) :
  forallb (fun c => negb (c =? open_bracket)) pre = true ->
  forallb (fun c => negb (c =? close_bracket)) post = true ->
  let text := pre ++ open_bracket :: mid ++ close_bracket :: post in
  option_map matched (exec bracket_regex text)
  = Some (open_bracket :: mid ++ [close_bracket])
  /\ figures (VString text)
     = match JSON_parse (open_bracket :: mid ++ [close_bracket]) with
       | Some (VArray data) => names data
       | Some _ => whole_answer text
       | None => []
       end.
Proof.
  intros Hpre Hpost text.
  assert (E : exec bracket_regex text
              = Some {| index := length pre;
                        matched := open_bracket :: mid ++ [close_bracket];
                        groups := []; after := post |}).
  { unfold exec, text. rewrite search_bracket_skip by exact Hpre.
    cbn [search]. rewrite match_here_bracket, N.eqb_refl.
    rewrite after_last_bracket_app by exact Hpost. cbn [option_map].
    f_equal. f_equal.
    replace (length (open_bracket :: mid ++ close_bracket :: post) - length post)%nat
      with (length (open_bracket :: mid ++ [close_bracket]) + 0)%nat
      by (cbn [length]; rewrite !length_app; cbn [length]; lia).
    change (open_bracket :: mid ++ close_bracket :: post)
      with ((open_bracket :: mid) ++ close_bracket :: post).
    replace ((open_bracket :: mid) ++ close_bracket :: post)
      with ((open_bracket :: mid ++ [close_bracket]) ++ post)
      by (cbn [app]; now rewrite <- app_assoc).
    rewrite firstn_app_2. cbn [firstn]. now rewrite app_nil_r. }
  split; [now rewrite E|].
  unfold figures. fold (whole_answer text).
  assert (Ht : Value.truthy (VString text) = true).
  { unfold text. cbn [Value.truthy]. now destruct pre. }
  rewrite Ht, E. cbn [negb matched]. reflexivity.
Qed.

Lemma figures_from_widest_brackets_witness :
  figures (rt := Engine.runtime) (VString MoreSamples.one_list) = [js "李白"]
  /\ option_map matched (exec bracket_regex MoreSamples.two_lists)
     = Some MoreSamples.two_lists
  /\ figures (rt := Engine.runtime) (VString MoreSamples.two_lists) = [].
Proof.
  destruct (figures_from_widest_brackets (rt := Engine.runtime) (js "名单：")
              (StoryMap.quotation_mark ++ js "李白" ++ StoryMap.quotation_mark)
              (js "。")) as [_ E1]; [vm_compute; reflexivity|vm_compute; reflexivity|].
  destruct (figures_from_widest_brackets (rt := Engine.runtime) []
              (StoryMap.quotation_mark ++ js "李白" ++ StoryMap.quotation_mark
               ++ js "] 和 [" ++ StoryMap.quotation_mark ++ js "杜甫"
               ++ StoryMap.quotation_mark) [])
    as [M2 E2]; [reflexivity|reflexivity|].
  split; [|split].
  - etransitivity; [|etransitivity; [exact E1|]]; vm_compute; reflexivity.
  - etransitivity; [|etransitivity; [exact M2|]]; vm_compute; reflexivity.
  - etransitivity; [|etransitivity; [exact E2|]]; vm_compute; reflexivity.
Defined.

(** X21. [callLLM] gives [null] for a response it cannot read (the request
    failed, the status is not a success, the body is not JSON), and then
    there are no figures; whatever the response, what it gives is [null],
    the empty string, or a truthy value. *)
Theorem unreadable_answer_gives_null {rt : Runtime} :
  (forall resp, unreadable resp ->
     callLLM resp = VNull /\ extractHistoricalFigures resp = [])
  /\ (forall resp,
        callLLM resp = VNull \/ callLLM resp = VString []
        \/ Value.truthy (callLLM resp) = true).
Proof.
  split.
  - intros resp [->|[[body ->]|[body [-> Hp]]]]; unfold extractHistoricalFigures;
      cbn [callLLM negb]; rewrite ?Hp; split; reflexivity.
  - intros [|ok body]; cbn [callLLM]; [now left|].
    destruct ok; cbn [negb]; [|now left].
    destruct (JSON_parse body) as [data|]; [|now left].
    destruct (StoryMap.nullish data); [now left|].
    destruct (Geocoder.has_matches (Value.get data (js "choices"))).
    + destruct (StoryMap.nullish (Value.first (Value.get data (js "choices"))));
        [now left|].
      match goal with
      | |- context [if Value.truthy ?c then _ else _] =>
        destruct (Value.truthy c) eqn:T; [right; right; exact T|right; now left]
      end.
    + destruct (Value.truthy (Value.get data (js "content"))) eqn:T1;
        [right; right; exact T1|].
      destruct (Value.truthy (Value.get data (js "text"))) eqn:T2;
        [right; right; exact T2|right; now left].
Qed.

End AiTheorems.

